(** * An active ADP learning agent (agents.py), embedded and verified

    The development follows the Python module function by function.

    - Numbers.  Python ints are [Z]; Python floats are idealised as exact
      rationals [Q] (no rounding, no NaN).  A division whose divisor is zero
      raises [ZeroDivisionError], which is written out.
    - Dictionaries are stdpp [gmap]s.  Iterating a dictionary visits its
      keys in the order of [map_to_list]; the code only feeds such
      iterations to sums and to [max], so the order is immaterial up to
      [Qeq].
    - Exceptions.  Fallible code returns an [outcome]; code that also
      mutates the tables runs in the monad [M], whose store survives a
      raised exception, exactly like dictionaries mutated in place.
    - The outside world (the environment object, the global random
      generator) is an abstract state [W] threaded through the store.
    - The three strategies share the text of their loop; the embedding
      shares it too ([learning_step], [episode_loop]) and keeps one
      definition per source function on top of it.  Their loops are bounded
      by [maxItr], which gives the recursion its measure
      ([run_strategy_finishes]); the loop of [solve] is not bounded and
      takes a fuel argument.
    - [_f2p] is called nowhere in the module and is left out. *)

From Stdlib Require Import ZArith QArith Qround Lia Lqa.
From stdpp Require Import gmap list fin_maps.

(** ** Outcomes of Python code *)

Inductive exn : Set := ZeroDivisionError | ValueError | IndexError.

(** [OutOfFuel] is not a Python outcome: it marks a loop of the model whose
    iteration budget ran out (only [solve] can produce it). *)
Inductive outcome (A : Type) : Type :=
| Ok (a : A)
| Raise (e : exn)
| OutOfFuel.
Arguments Ok {A} a.
Arguments Raise {A} e.
Arguments OutOfFuel {A}.

Definition obind {A B} (o : outcome A) (k : A -> outcome B) : outcome B :=
  match o with
  | Ok a => k a
  | Raise e => Raise e
  | OutOfFuel => OutOfFuel
  end.

Declare Scope out_scope.
Delimit Scope out_scope with out.
Notation "x <- o ;; k" := (obind o (fun x => k))
  (at level 100, o at next level, right associativity) : out_scope.

(** The for-loop [for x in xs: acc.append(f(x))], started with [acc]. *)
Fixpoint for_append {A B} (f : A -> outcome B) (xs : list A) (acc : list B)
  : outcome (list B) :=
  match xs with
  | [] => Ok acc
  | x :: rest => obind (f x) (fun y => for_append f rest (acc ++ [y]))
  end.

(** ** The Python runtime the module relies on *)

(** [<] between two action objects. *)
Class PyOrd (A : Type) := py_lt : A -> A -> bool.

(** [random.random()] on the state of the world, and [math.log], which has
    no value outside its domain ([ValueError]). *)
Class PyRuntime (W : Type) := {
  random_random : W -> Q * W;
  math_log : Q -> option Q
}.

Definition Qlt_bool (x y : Q) : bool := negb (Qle_bool y x).

(** [x / y] on floats. *)
Definition py_div (x y : Q) : outcome Q :=
  if Qeq_bool y 0 then Raise ZeroDivisionError else Ok (x / y)%Q.

(** [sum(...)]: starts from 0 and adds from the left. *)
Definition py_sum_Z (l : list Z) : Z := foldl Z.add 0%Z l.
Definition py_sum_Q (l : list Q) : Q := foldl Qplus 0%Q l.

Section Estimates.
Context {State Action : Type}.
Context `{Countable State} `{Countable Action} `{PyOrd Action}.

(** [(e1, a1) > (e2, a2)] on tuples: the first components decide unless
    they are equal, then the second components do. *)
Definition tuple_gt (x y : Q * Action) : bool :=
  if Qeq_bool x.1 y.1 then py_lt y.2 x.2 else Qlt_bool y.1 x.1.

(** [max(seq)]: the running maximum is replaced only by a strictly greater
    item; an empty sequence raises [ValueError]. *)
Definition py_max (l : list (Q * Action)) : outcome (Q * Action) :=
  match l with
  | [] => Raise ValueError
  | x :: rest => Ok (foldl (fun m item => if tuple_gt item m then item else m) x rest)
  end.

(** agents.py:20 *)
Definition _alpha (n : Z) : outcome Q :=
  py_div 50 (inject_Z (49 + n)).

(** [currActions or transs.get(currState, {})] as an iteration source. *)
Definition candidates (transs : gmap State (gmap Action (gmap State Z)))
    (currState : State) (currActions : option (list Action)) : list Action :=
  match currActions with
  | Some (a :: l) => a :: l
  | _ => (map_to_list (default ∅ (transs !! currState))).*1
  end.

(** [transs.get(currState, {}).get(ac, {})] *)
Definition freq_of (transs : gmap State (gmap Action (gmap State Z)))
    (currState : State) (ac : Action) : gmap State Z :=
  default ∅ (default ∅ (transs !! currState) !! ac).

(** [n = sum(val for val in freq.values())] *)
Definition count_of (freq : gmap State Z) : Z :=
  py_sum_Z (map_to_list freq).*2.

(** [probs = dict((key, float(val) / n) for key, val in freq.iteritems())] *)
Definition probs_of (freq : gmap State Z) (n : Z) : outcome (list (State * Q)) :=
  for_append (fun kv : State * Z =>
                p <- py_div (inject_Z kv.2) (inject_Z n);; Ok (kv.1, p))%out
             (map_to_list freq) [].

(** [sum(p * utils.get(s, 0) for s, p in probs.iteritems())], read over exact
    rationals: the code multiplies and adds IEEE doubles, so the value it
    returns can differ from this one by rounding (six successors of count 1
    and utility 1 give 0.9999999999999999 in the code and 1 here). *)
Definition weighted (utils : gmap State Q) (probs : list (State * Q)) : Q :=
  py_sum_Q (map (fun sp : State * Q => sp.2 * default 0 (utils !! sp.1))%Q probs).

(** One pass of the loop body of [_getEstimates] (agents.py:51-55). *)
Definition estimate_action (transs : gmap State (gmap Action (gmap State Z)))
    (utils : gmap State Q) (currState : State) (ac : Action) : outcome (Q * Action) :=
  let freq := freq_of transs currState ac in
  let n := count_of freq in
  (probs <- probs_of freq n;;
   Ok (weighted utils probs, ac))%out.

(** agents.py:31 *)
Definition _getEstimates (transs : gmap State (gmap Action (gmap State Z)))
    (utils : gmap State Q) (currState : State) (currActions : option (list Action))
  : outcome (list (Q * Action)) :=
  for_append (estimate_action transs utils currState)
             (candidates transs currState currActions) [].

(** One pass of the loop body of [_getEstimatesOptimistic] (agents.py:69-80). *)
Definition estimate_action_optimistic (transs : gmap State (gmap Action (gmap State Z)))
    (utils : gmap State Q) (currState : State) (R_plus : Q) (N_e : Z) (ac : Action)
  : outcome (Q * Action) :=
  let freq := freq_of transs currState ac in
  let n := count_of freq in
  (probs <- probs_of freq n;;
   let u := weighted utils probs in
   if (n <? N_e)%Z then Ok (R_plus, ac) else Ok (u, ac))%out.

(** agents.py:59 *)
Definition _getEstimatesOptimistic (transs : gmap State (gmap Action (gmap State Z)))
    (utils : gmap State Q) (currState : State) (R_plus : Q) (N_e : Z)
    (currActions : option (list Action)) : outcome (list (Q * Action)) :=
  for_append (estimate_action_optimistic transs utils currState R_plus N_e)
             (candidates transs currState currActions) [].

(** "First-seen action wins ties": [best] is the earliest of the pairs in
    [ests] whose estimate equals the selected one. *)
Definition first_seen_wins (ests : list (Q * Action)) (best : Q * Action) : Prop :=
  exists i : nat, ests !! i = Some best /\
    forall (j : nat) (x : Q * Action), ests !! j = Some x -> (x.1 == best.1)%Q -> (i <= j)%nat.


(** The data-model invariant of the transition model: a count that is
    recorded is at least 1. *)
Definition positive_counts (transs : gmap State (gmap Action (gmap State Z))) : Prop :=
  map_Forall (fun _ by_action =>
    map_Forall (fun _ successors =>
      map_Forall (fun _ c => (1 <= c)%Z) successors)
      (by_action : gmap Action (gmap State Z))) transs.

(** The expected utility in the words of the specification: the sum over the
    recorded successors of probability times utility, a probability being a
    count divided by the total count. *)
Definition expected_utility (utils : gmap State Q) (freq : gmap State Z) : Q :=
  py_sum_Q (map (fun kv : State * Z =>
                   (inject_Z kv.2 / inject_Z (count_of freq)) * default 0 (utils !! kv.1))%Q
                (map_to_list freq)).

(** The optimistic value of one action in the words of the specification. *)
Definition optimistic_value (transs : gmap State (gmap Action (gmap State Z)))
    (utils : gmap State Q) (currState : State) (R_plus : Q) (N_e : Z) (ac : Action) : Q :=
  if (count_of (freq_of transs currState ac) <? N_e)%Z then R_plus
  else expected_utility utils (freq_of transs currState ac).

(** The next three definitions are written from the words of the
    specification and read the transition model directly; they share
    nothing with [freq_of], [count_of] and the estimation routines above,
    which they are compared with.

    "The successor-count mapping for (state, action); if absent, treat as
    zero observations". *)
Definition recorded_successors (transs : gmap State (gmap Action (gmap State Z)))
    (state : State) (ac : Action) : gmap State Z :=
  match transs !! state with
  | Some by_action =>
      match by_action !! ac with
      | Some successors => successors
      | None => ∅
      end
  | None => ∅
  end.

(** "The total observation count n" recorded for (state, action). *)
Definition observation_count (transs : gmap State (gmap Action (gmap State Z)))
    (state : State) (ac : Action) : Z :=
  py_sum_Z (map snd (map_to_list (recorded_successors transs state ac))).

End Estimates.

(** ** The store, the environment and the monad of the strategies *)

Section Engine.
Context {State Action W : Type}.
Context `{Countable State} `{Countable Action} `{PyOrd Action} `{PyRuntime W}.

(** The environment contract: [getStartingState], [getActions] and [do].
    [do] may change the world (an environment is internally stochastic). *)
Record Env : Type := {
  getStartingState : W -> State;
  getActions : W -> State -> list Action;
  do : State -> Action -> W -> (State * Q * bool) * W
}.

(** The three dictionaries a strategy works on, and the world. *)
Record Store : Type := {
  transs : gmap State (gmap Action (gmap State Z));
  utils : gmap State Q;
  freqs : gmap State Z;
  world : W
}.

Definition M (A : Type) : Type := Store -> outcome A * Store.

Definition ret {A} (a : A) : M A := fun s => (Ok a, s).

Definition bind {A B} (m : M A) (k : A -> M B) : M B :=
  fun s =>
    match m s with
    | (Ok a, s') => k a s'
    | (Raise e, s') => (Raise e, s')
    | (OutOfFuel, s') => (OutOfFuel, s')
    end.

Definition lift {A} (o : outcome A) : M A := fun s => (o, s).
Definition gets {A} (f : Store -> A) : M A := fun s => (Ok (f s), s).
Definition modify (f : Store -> Store) : M unit := fun s => (Ok tt, f s).

(** A computation keeps a relation between the store it starts from and the
    store it leaves, whatever its outcome. *)
Definition keeps {A} (R : Store -> Store -> Prop) (m : M A) : Prop :=
  forall s, R s (m s).2.

(** A computation ends within the iteration budget of the model. *)
Definition finishes {A} (m : M A) : Prop :=
  forall s, (m s).1 <> OutOfFuel.

Definition set_transs (v : gmap State (gmap Action (gmap State Z))) (s : Store) : Store :=
  {| transs := v; utils := utils s; freqs := freqs s; world := world s |}.
Definition set_utils (v : gmap State Q) (s : Store) : Store :=
  {| transs := transs s; utils := v; freqs := freqs s; world := world s |}.
Definition set_freqs (v : gmap State Z) (s : Store) : Store :=
  {| transs := transs s; utils := utils s; freqs := v; world := world s |}.
Definition set_world (v : W) (s : Store) : Store :=
  {| transs := transs s; utils := utils s; freqs := freqs s; world := v |}.
End Engine.

Arguments Env : clear implicits.
Arguments Store State Action W {_ _ _ _}.
Arguments M State Action W {_ _ _ _} A.

Declare Scope m_scope.
Delimit Scope m_scope with M.
Notation "x <- m ;; k" := (bind m (fun x => k))
  (at level 100, m at next level, right associativity) : m_scope.

Section Strategies.
Context {State Action W : Type}.
Context `{Countable State} `{Countable Action} `{PyOrd Action} `{PyRuntime W}.

Local Abbreviation M := (M State Action W).
Local Abbreviation Store := (Store State Action W).
Local Abbreviation Env := (Env State Action W).

(** [random.random()] *)
Definition random : M Q :=
  fun s => let (r, w) := random_random (world s) in (Ok r, set_world w s).

(** [random.choice(seq)], that is [seq[int(random() * len(seq))]]. *)
Definition random_choice {A} (seq : list A) : M A :=
  (r <- random;;
   lift (match seq !! Z.to_nat (Qfloor (r * inject_Z (Z.of_nat (length seq)))) with
         | Some a => Ok a
         | None => Raise IndexError
         end))%M.

Definition env_getStartingState (env : Env) : M State :=
  gets (fun s => getStartingState env (world s)).
Definition env_getActions (env : Env) (state : State) : M (list Action) :=
  gets (fun s => getActions env (world s) state).
Definition env_do (env : Env) (state : State) (action : Action) : M (State * Q * bool) :=
  fun s => let (res, w) := do env state action (world s) in (Ok res, set_world w s).

(** [freqs.setdefault(newState, 0); freqs[newState] += 1] *)
Definition count_visit (newState : State) : M unit :=
  modify (fun s => set_freqs (<[newState := (default 0 (freqs s !! newState) + 1)%Z]> (freqs s)) s).

(** [transs.setdefault(state, {}).setdefault(bestAction, {}).setdefault(newState, 0);
     transs[state][bestAction][newState] += 1] *)
Definition count_transition (state : State) (bestAction : Action) (newState : State) : M unit :=
  modify (fun s =>
    let by_action := default ∅ (transs s !! state) in
    let successors := default ∅ (by_action !! bestAction) in
    let n := default 0%Z (successors !! newState) in
    set_transs (<[state := <[bestAction := <[newState := (n + 1)%Z]> successors]> by_action]>
                  (transs s)) s).

(** [utils[state] = v] *)
Definition store_utility (state : State) (v : Q) : M unit :=
  modify (fun s => set_utils (<[state := v]> (utils s)) s).

(** [max(_getEstimates(transs, utils, state, actions))] on the current tables. *)
Definition best_estimate (state : State) (actions : list Action) : M (Q * Action) :=
  fun s => (obind (_getEstimates (transs s) (utils s) state (Some actions)) py_max, s).

(** [max(_getEstimatesOptimistic(transs, utils, state, R_plus, N_e, actions))] *)
Definition best_estimate_optimistic (R_plus : Q) (N_e : Z) (state : State)
    (actions : list Action) : M (Q * Action) :=
  fun s => (obind (_getEstimatesOptimistic (transs s) (utils s) state R_plus N_e (Some actions))
                  py_max, s).

(** The keyword arguments a strategy reads ([kwargs.get(name, default)]). *)
Record Kwargs : Type := {
  kw_t : option Q;
  kw_tStep : option Q;
  kw_alpha : option (Z -> outcome Q);
  kw_maxItr : option Z;
  kw_R_plus : option Q;
  kw_N_e : option Z
}.

Definition no_kwargs : Kwargs :=
  {| kw_t := None; kw_tStep := None; kw_alpha := None; kw_maxItr := None;
     kw_R_plus := None; kw_N_e := None |}.

(** The local variables of an episode loop. *)
Record Locals : Type := {
  l_state : State;
  l_actions : list Action;
  l_reward : Q;
  l_rewardEstimate : option Q;
  l_bestAction : option Action;
  l_t : Q;
  l_itr : Z;
  l_isTerminal : bool
}.

(** The model bound of a loop that leaves at [itr >= maxItr]: its body runs
    at least once and at most [maxItr] times. *)
Definition iteration_bound (maxItr : Z) : nat := Z.to_nat (Z.max 1 maxItr).

(** The part of the loop body that the three strategies share word for word
    (agents.py:135-164, 212-234 and 281-310), once [bestAction] is chosen:
    act, count the visit and the transition, update the utility of the state
    left, and pick the candidate for the next pass.  [best] is the strategy's
    estimator followed by [max]. *)
Definition learning_step (env : Env) (best : State -> list Action -> M (Q * Action))
    (l : Locals) (bestAction : Action) : M Locals :=
  (res <- env_do env (l_state l) bestAction;;
   let '(newState, new_reward, isTerminal) := res in
   _ <- count_visit newState;;
   _ <- count_transition (l_state l) bestAction newState;;
   actions <- env_getActions env (l_state l);;
   est <- best (l_state l) actions;;
   n <- gets (fun s => default 0%Z (freqs s !! l_state l));;
   a <- lift (_alpha n);;
   _ <- store_utility (l_state l) (l_reward l + a * est.1);;
   new_actions <- env_getActions env newState;;
   est' <- best newState new_actions;;
   ret {| l_state := newState; l_actions := new_actions; l_reward := new_reward;
          l_rewardEstimate := Some est'.1; l_bestAction := Some est'.2;
          l_t := l_t l; l_itr := l_itr l + 1; l_isTerminal := isTerminal |})%M.

(** [while not isTerminal: body; if itr >= maxItr: break] then [return itr]. *)
Fixpoint episode_loop (fuel : nat) (body : Locals -> M Locals) (maxItr : Z) (l : Locals)
  : M Z :=
  if l_isTerminal l then ret (l_itr l) else
  match fuel with
  | O => lift OutOfFuel
  | S fuel' =>
      (l' <- body l;;
       if (maxItr <=? l_itr l')%Z then ret (l_itr l')
       else episode_loop fuel' body maxItr l')%M
  end.

(** The locals on entering the loop, with [rewardEstimate, bestAction] given. *)
Definition entry (state : State) (actions : list Action) (t : Q)
    (init : option (Q * Action)) : Locals :=
  {| l_state := state; l_actions := actions; l_reward := 0;
     l_rewardEstimate := fst <$> init; l_bestAction := snd <$> init;
     l_t := t; l_itr := 0; l_isTerminal := false |}.

(** *** Strategy A: random exploration, global time (agents.py:83) *)

(** agents.py:128-131 *)
Definition adp_random_exploration_choose (l : Locals) : M Action :=
  (r <- random;;
   lg <- lift (match math_log (l_t l + 1) with
               | Some x => Ok x
               | None => Raise ValueError
               end);;
   threshold <- lift (py_div 1 lg);;
   match l_bestAction l with
   | Some b => if Qlt_bool r threshold then random_choice (l_actions l) else ret b
   | None => random_choice (l_actions l)
   end)%M.

(** agents.py:128-169; the last line is [t, itr = t + tStep, itr + 1]. *)
Definition adp_random_exploration_body (env : Env) (tStep : Q) (l : Locals) : M Locals :=
  (bestAction <- adp_random_exploration_choose l;;
   l' <- learning_step env best_estimate l bestAction;;
   ret {| l_state := l_state l'; l_actions := l_actions l'; l_reward := l_reward l';
          l_rewardEstimate := l_rewardEstimate l'; l_bestAction := l_bestAction l';
          l_t := l_t l + tStep; l_itr := l_itr l'; l_isTerminal := l_isTerminal l' |})%M.

(** agents.py:114-125 *)
Definition adp_random_exploration_init (env : Env) (t : Q) : M Locals :=
  (state <- env_getStartingState env;;
   actions <- env_getActions env state;;
   len_utils <- gets (fun s => size (utils s));;
   if (0 <? len_utils)%nat
   then (est <- best_estimate state actions;; ret (entry state actions t (Some est)))
   else ret (entry state actions t None))%M.

Definition adp_random_exploration (env : Env) (kwargs : Kwargs) : M Z :=
  let t := default 1%Q (kw_t kwargs) in
  let tStep := default (8 # 10)%Q (kw_tStep kwargs) in
  let alpha := default _alpha (kw_alpha kwargs) in
  let maxItr := default 50%Z (kw_maxItr kwargs) in
  (l <- adp_random_exploration_init env t;;
   episode_loop (iteration_bound maxItr) (adp_random_exploration_body env tStep) maxItr l)%M.

(** *** Strategy B: random exploration scaled by experience (agents.py:175) *)

(** [t = float(len(freqs)) or 1.] *)
Definition experience (freqs : gmap State Z) : Q :=
  if (size freqs =? 0)%nat then 1 else inject_Z (Z.of_nat (size freqs)).

(** agents.py:204-208 *)
Definition adp_random_exploration_state_choose (l : Locals) : M Action :=
  (t <- gets (fun s => experience (freqs s));;
   r <- random;;
   threshold <- lift (py_div 1 (t + 1));;
   match l_bestAction l with
   | Some b => if Qlt_bool r threshold then random_choice (l_actions l) else ret b
   | None => random_choice (l_actions l)
   end)%M.

(** agents.py:204-236 *)
Definition adp_random_exploration_state_body (env : Env) (l : Locals) : M Locals :=
  (bestAction <- adp_random_exploration_state_choose l;;
   learning_step env best_estimate l bestAction)%M.

(** agents.py:192-201: the first estimate is commented out in the source. *)
Definition adp_random_exploration_state_init (env : Env) : M Locals :=
  (state <- env_getStartingState env;;
   actions <- env_getActions env state;;
   ret (entry state actions 0 None))%M.

Definition adp_random_exploration_state (env : Env) (kwargs : Kwargs) : M Z :=
  let alpha := default _alpha (kw_alpha kwargs) in
  let maxItr := default 50%Z (kw_maxItr kwargs) in
  (l <- adp_random_exploration_state_init env;;
   episode_loop (iteration_bound maxItr) (adp_random_exploration_state_body env) maxItr l)%M.

(** *** Strategy C: optimistic rewards (agents.py:242) *)

(** agents.py:274-277 *)
Definition adp_optimistic_rewards_choose (l : Locals) : M Action :=
  match l_bestAction l with
  | Some b => ret b
  | None => random_choice (l_actions l)
  end.

(** agents.py:274-312 *)
Definition adp_optimistic_rewards_body (env : Env) (R_plus : Q) (N_e : Z) (l : Locals)
  : M Locals :=
  (bestAction <- adp_optimistic_rewards_choose l;;
   learning_step env (best_estimate_optimistic R_plus N_e) l bestAction)%M.

(** agents.py:260-271 *)
Definition adp_optimistic_rewards_init (env : Env) (R_plus : Q) (N_e : Z) : M Locals :=
  (state <- env_getStartingState env;;
   actions <- env_getActions env state;;
   len_utils <- gets (fun s => size (utils s));;
   if (0 <? len_utils)%nat
   then (est <- best_estimate_optimistic R_plus N_e state actions;;
         ret (entry state actions 0 (Some est)))
   else ret (entry state actions 0 None))%M.

Definition adp_optimistic_rewards (env : Env) (kwargs : Kwargs) : M Z :=
  let R_plus := default 5%Q (kw_R_plus kwargs) in
  let N_e := default 12%Z (kw_N_e kwargs) in
  let alpha := default _alpha (kw_alpha kwargs) in
  let maxItr := default 10%Z (kw_maxItr kwargs) in
  (l <- adp_optimistic_rewards_init env R_plus N_e;;
   episode_loop (iteration_bound maxItr) (adp_optimistic_rewards_body env R_plus N_e)
     maxItr l)%M.

(** ** Default arguments: [transs={}, utils={}, freqs={}]

    A default value is evaluated once, when the [def] is executed; each of
    the three functions owns three dictionaries that every call without the
    corresponding argument works on, in place. *)

Record Tables : Type := {
  t_transs : gmap State (gmap Action (gmap State Z));
  t_utils : gmap State Q;
  t_freqs : gmap State Z
}.

Definition empty_tables : Tables := {| t_transs := ∅; t_utils := ∅; t_freqs := ∅ |}.

Record ModuleState : Type := {
  adp_random_exploration_defaults : Tables;
  adp_random_exploration_state_defaults : Tables;
  adp_optimistic_rewards_defaults : Tables
}.

(** The module right after [import agents]. *)
Definition module_loaded : ModuleState :=
  {| adp_random_exploration_defaults := empty_tables;
     adp_random_exploration_state_defaults := empty_tables;
     adp_optimistic_rewards_defaults := empty_tables |}.

(** The optional table arguments of a call. *)
Record TableArgs : Type := {
  arg_transs : option (gmap State (gmap Action (gmap State Z)));
  arg_utils : option (gmap State Q);
  arg_freqs : option (gmap State Z)
}.

Definition bare : TableArgs := {| arg_transs := None; arg_utils := None; arg_freqs := None |}.

(** The dictionaries a call starts with: the argument where one is given,
    the function's default object otherwise. *)
Definition tables_on_entry (defaults : Tables) (args : TableArgs) : Tables :=
  {| t_transs := default (t_transs defaults) (arg_transs args);
     t_utils := default (t_utils defaults) (arg_utils args);
     t_freqs := default (t_freqs defaults) (arg_freqs args) |}.

(** A call of [alg] with [args]: the result, the dictionaries as the call
    leaves them, the function's default objects afterwards, and the world. *)
Definition call (alg : M Z) (defaults : Tables) (args : TableArgs) (w : W)
  : outcome Z * Tables * Tables * W :=
  let on_entry := tables_on_entry defaults args in
  let (o, s) := alg {| transs := t_transs on_entry; utils := t_utils on_entry;
                       freqs := t_freqs on_entry; world := w |} in
  (o,
   {| t_transs := transs s; t_utils := utils s; t_freqs := freqs s |},
   {| t_transs := match arg_transs args with Some _ => t_transs defaults | None => transs s end;
      t_utils := match arg_utils args with Some _ => t_utils defaults | None => utils s end;
      t_freqs := match arg_freqs args with Some _ => t_freqs defaults | None => freqs s end |},
   world s).

Definition call_adp_random_exploration (env : Env) (args : TableArgs) (kwargs : Kwargs)
    (m : ModuleState) (w : W) : outcome Z * Tables * ModuleState * W :=
  let '(o, used, d, w') :=
    call (adp_random_exploration env kwargs) (adp_random_exploration_defaults m) args w in
  (o, used,
   {| adp_random_exploration_defaults := d;
      adp_random_exploration_state_defaults := adp_random_exploration_state_defaults m;
      adp_optimistic_rewards_defaults := adp_optimistic_rewards_defaults m |}, w').

Definition call_adp_random_exploration_state (env : Env) (args : TableArgs)
    (kwargs : Kwargs) (m : ModuleState) (w : W) : outcome Z * Tables * ModuleState * W :=
  let '(o, used, d, w') :=
    call (adp_random_exploration_state env kwargs)
         (adp_random_exploration_state_defaults m) args w in
  (o, used,
   {| adp_random_exploration_defaults := adp_random_exploration_defaults m;
      adp_random_exploration_state_defaults := d;
      adp_optimistic_rewards_defaults := adp_optimistic_rewards_defaults m |}, w').

Definition call_adp_optimistic_rewards (env : Env) (args : TableArgs) (kwargs : Kwargs)
    (m : ModuleState) (w : W) : outcome Z * Tables * ModuleState * W :=
  let '(o, used, d, w') :=
    call (adp_optimistic_rewards env kwargs) (adp_optimistic_rewards_defaults m) args w in
  (o, used,
   {| adp_random_exploration_defaults := adp_random_exploration_defaults m;
      adp_random_exploration_state_defaults := adp_random_exploration_state_defaults m;
      adp_optimistic_rewards_defaults := d |}, w').

(** ** The Agent class (agents.py:319) *)

Record Agent : Type := {
  nTable : gmap State Z;
  transTable : gmap State (gmap Action (gmap State Z));
  uTable : gmap State Q;
  results : list Q
}.

(** agents.py:323 *)
Definition clearExperience (self : Agent) : Agent :=
  {| nTable := ∅; transTable := ∅; uTable := ∅; results := [] |}.

(** [for state in self.transTable: policy[state] = max(_getEstimates(...))[1]] *)
Fixpoint getPolicy_loop (self : Agent) (states : list State) (policy : gmap State Action)
  : outcome (gmap State Action) :=
  match states with
  | [] => Ok policy
  | state :: rest =>
      (ests <- _getEstimates (transTable self) (uTable self) state None;;
       best <- py_max ests;;
       getPolicy_loop self rest (<[state := best.2]> policy))%out
  end.

(** agents.py:336 *)
Definition getPolicy (self : Agent) : outcome (gmap State Action) :=
  getPolicy_loop self (map_to_list (transTable self)).*1 ∅.

(** The agent's dictionaries are the ones the strategy mutates. *)
Definition store_of (self : Agent) (w : W) : Store :=
  {| transs := transTable self; utils := uTable self; freqs := nTable self; world := w |}.

Definition agent_of (self : Agent) (s : Store) : Agent :=
  {| nTable := freqs s; transTable := transs s; uTable := utils s; results := results self |}.

(** [for trial in range(numOfTrials): itrs += alg(env, ...)] *)
Fixpoint learn_trials (alg : Env -> Kwargs -> M Z) (env : Env) (kwargs : Kwargs)
    (trials : nat) (itrs : Z) : M Z :=
  match trials with
  | O => ret itrs
  | S trials' =>
      (n <- alg env kwargs;;
       learn_trials alg env kwargs trials' (itrs + n)%Z)%M
  end.

(** agents.py:343.  The keywords [currItrs] and [results] that [learn] adds
    are read by no strategy. *)
Definition learn (self : Agent) (env : Env) (alg : Env -> Kwargs -> M Z)
    (numOfTrials : Z) (kwargs : Kwargs) (w : W)
  : outcome (gmap State Action) * Agent * W :=
  let self := clearExperience self in
  let (o, s) := learn_trials alg env kwargs (Z.to_nat numOfTrials) 0 (store_of self w) in
  let self := agent_of self s in
  (obind o (fun _ => getPolicy self), self, world s).

(** agents.py:373-375 *)
Definition solve_choose (env : Env) (policy : gmap State Action) (state : State)
  : M Action :=
  match policy !! state with
  | Some act => ret act
  | None => (actions <- env_getActions env state;; random_choice actions)%M
  end.

(** The while-loop of [solve], agents.py:371-383.  The loop may run for ever;
    [fuel] bounds the passes of the model. *)
Fixpoint solve_loop (fuel : nat) (env : Env) (policy : gmap State Action)
    (state : State) (actions : list Action) (energy : Q) : M (list Action * Q) :=
  match fuel with
  | O => lift OutOfFuel
  | S fuel' =>
      (act <- solve_choose env policy state;;
       res <- env_do env state act;;
       let '(state', reward, isTerminalState) := res in
       let actions := actions ++ [act] in
       let energy := (energy + reward)%Q in
       if Qlt_bool energy (-1000) then ret (actions, energy)
       else if isTerminalState then ret (actions, energy)
       else solve_loop fuel' env policy state' actions energy)%M
  end.

(** agents.py:364 *)
Definition solve (fuel : nat) (env : Env) (policy : gmap State Action)
  : M (list Action * Q) :=
  (state <- env_getStartingState env;;
   solve_loop fuel env policy state [] 0)%M.

(** ** The three strategies as one episode-runner capability *)

Inductive strategy : Set :=
| RandomExploration
| RandomExplorationState
| OptimisticRewards.

Definition run_strategy (st : strategy) : Env -> Kwargs -> M Z :=
  match st with
  | RandomExploration => adp_random_exploration
  | RandomExplorationState => adp_random_exploration_state
  | OptimisticRewards => adp_optimistic_rewards
  end.

(** [maxItr = kwargs.get('maxItr', ...)] *)
Definition strategy_maxItr (st : strategy) (kwargs : Kwargs) : Z :=
  default (match st with OptimisticRewards => 10 | _ => 50 end)%Z (kw_maxItr kwargs).

(** The statements before the while-loop. *)
Definition strategy_init (st : strategy) (env : Env) (kwargs : Kwargs) : M Locals :=
  match st with
  | RandomExploration => adp_random_exploration_init env (default 1%Q (kw_t kwargs))
  | RandomExplorationState => adp_random_exploration_state_init env
  | OptimisticRewards =>
      adp_optimistic_rewards_init env (default 5%Q (kw_R_plus kwargs))
                                  (default 12%Z (kw_N_e kwargs))
  end.

(** The body of the while-loop. *)
Definition strategy_body (st : strategy) (env : Env) (kwargs : Kwargs)
  : Locals -> M Locals :=
  match st with
  | RandomExploration =>
      adp_random_exploration_body env (default (8 # 10)%Q (kw_tStep kwargs))
  | RandomExplorationState => adp_random_exploration_state_body env
  | OptimisticRewards =>
      adp_optimistic_rewards_body env (default 5%Q (kw_R_plus kwargs))
                                  (default 12%Z (kw_N_e kwargs))
  end.

(** The estimation routine the strategy maximises over. *)
Definition strategy_estimates (st : strategy) (kwargs : Kwargs)
  : gmap State (gmap Action (gmap State Z)) -> gmap State Q -> State ->
    option (list Action) -> outcome (list (Q * Action)) :=
  match st with
  | OptimisticRewards =>
      fun transs utils state actions =>
        _getEstimatesOptimistic transs utils state (default 5%Q (kw_R_plus kwargs))
                                (default 12%Z (kw_N_e kwargs)) actions
  | _ => _getEstimates
  end.



(** ** [solve] in the words of the specification *)

(** The action taken in a state: the policy's action, or a random legal
    action when the state has no policy entry. *)
Inductive solve_takes (env : Env) (policy : gmap State Action) (state : State)
  : Store -> Action -> Store -> Prop :=
| takes_policy s act :
    policy !! state = Some act ->
    solve_takes env policy state s act s
| takes_random s act s' :
    policy !! state = None ->
    random_choice (getActions env (world s) state) s = (Ok act, s') ->
    solve_takes env policy state s act s'.

(** A replay from [state] with the trace [actions] and the total [energy] so
    far: every step appends the action taken and adds the reward received;
    the replay ends at the first step after which the environment signals
    termination or the total is below -1000. *)
Inductive solve_run (env : Env) (policy : gmap State Action)
  : State -> list Action -> Q -> Store -> list Action * Q -> Store -> Prop :=
| run_stop state actions energy s act s1 state' reward isTerminalState w :
    solve_takes env policy state s act s1 ->
    do env state act (world s1) = ((state', reward, isTerminalState), w) ->
    (energy + reward < -1000)%Q \/ isTerminalState = true ->
    solve_run env policy state actions energy s
              (actions ++ [act], (energy + reward)%Q) (set_world w s1)
| run_step state actions energy s act s1 state' reward w res s' :
    solve_takes env policy state s act s1 ->
    do env state act (world s1) = ((state', reward, false), w) ->
    ~ (energy + reward < -1000)%Q ->
    solve_run env policy state' (actions ++ [act]) (energy + reward)%Q
              (set_world w s1) res s' ->
    solve_run env policy state actions energy s res s'.

(** The frequency table [f'] continues [f]: no entry is lost and no count,
    read as [freqs.get(state, 0)], decreases. *)
Definition counts_grow (f f' : gmap State Z) : Prop :=
  forall state : State,
    (default 0 (f !! state) <= default 0 (f' !! state))%Z /\
    (is_Some (f !! state) -> is_Some (f' !! state)).

Definition freqs_grow (s s' : Store) : Prop := counts_grow (freqs s) (freqs s').

(** The invariant of the transition model is not lost. *)
Definition stays_positive (s s' : Store) : Prop :=
  positive_counts (transs s) -> positive_counts (transs s').

(** Every state of the transition model has at least one recorded action. *)
Definition inhabited_actions (transs : gmap State (gmap Action (gmap State Z))) : Prop :=
  map_Forall (fun _ by_action => by_action <> (∅ : gmap Action (gmap State Z))) transs.

Definition stays_inhabited (s s' : Store) : Prop :=
  inhabited_actions (transs s) -> inhabited_actions (transs s').

(** The action lists of the environment do not depend on the world. *)
Definition static_actions (env : Env) : Prop :=
  forall (w w' : W) (state : State), getActions env w state = getActions env w' state.

(** Every action recorded for a state is one the environment offers there. *)
Definition offered (env : Env) (transs : gmap State (gmap Action (gmap State Z))) : Prop :=
  forall (w : W) (state : State) by_action (ac : Action),
    transs !! state = Some by_action -> is_Some (by_action !! ac) ->
    ac ∈ getActions env w state.

(** The action list and the best action held at a loop head belong to the
    current state. *)
Definition legal_locals (env : Env) (l : Locals) : Prop :=
  (forall w : W, l_actions l = getActions env w (l_state l)) /\
  (forall (w : W) (b : Action), l_bestAction l = Some b -> b ∈ getActions env w (l_state l)).

(** The tables as the strategies leave them: counts of transitions are at
    least 1, visit counts are not negative, and the utilities cover the
    states of the transition model and no other state. *)
Definition consistent_tables (s : Store) : Prop :=
  positive_counts (transs s) /\
  map_Forall (fun _ c => (0 <= c)%Z) (freqs s) /\
  forall state : State, utils s !! state = None <-> transs s !! state = None.

(** The three dictionaries are as they were. *)
Definition same_tables (s s' : Store) : Prop :=
  transs s' = transs s /\ utils s' = utils s /\ freqs s' = freqs s.
End Strategies.

Arguments Kwargs : clear implicits.
Arguments Locals : clear implicits.
Arguments Agent State Action {_ _ _ _}.
Arguments Tables State Action {_ _ _ _}.
Arguments ModuleState State Action {_ _ _ _}.
Arguments TableArgs State Action {_ _ _ _}.

(** ** Concrete scenarios

    States and actions are numbered; Python compares ints numerically.  The
    world is the tape of numbers that [random.random()] will return (0 once
    the tape is used up, and in place of an entry outside [0, 1)).
    [math.log] is replaced by a rational stand-in with the sign and the
    domain of the logarithm; no statement below depends on more than that. *)
Module Scenario.

#[export] Instance nat_PyOrd : PyOrd nat := Nat.ltb.

#[export] Instance tape_PyRuntime : PyRuntime (list Q) := {|
  random_random w :=
    match w with
    | [] => (0%Q, [])
    | r :: w' => (if Qle_bool 0 r && Qlt_bool r 1 then r else 0%Q, w')
    end;
  math_log x := if Qle_bool x 0 then None
                else Some (2 * (x - 1) / (x + 1))%Q
|}.

Definition fresh (w : list Q) : Store nat nat (list Q) :=
  {| transs := ∅; utils := ∅; freqs := ∅; world := w |}.

(** One action leads from state 0 to the terminal state 1, where the
    environment offers no action. *)
Definition dead_end : Env nat nat (list Q) :=
  {| getStartingState _ := 0%nat;
     getActions _ s := if (s =? 0)%nat then [0%nat] else [];
     do s a w := ((1%nat, 0%Q, true), w) |}.

(** The same step, but action 0 stays on offer in the terminal state. *)
Definition one_step : Env nat nat (list Q) :=
  {| getStartingState _ := 0%nat;
     getActions _ _ := [0%nat];
     do s a w := ((1%nat, 0%Q, true), w) |}.

(** A chain 0 -> 1 -> 2 with rewards 3 and 7; state 2 is terminal. *)
Definition chain : Env nat nat (list Q) :=
  {| getStartingState _ := 0%nat;
     getActions _ _ := [0%nat];
     do s a w := ((S s, if (s =? 0)%nat then 3%Q else 7%Q, (1 <=? s)%nat), w) |}.

(** Every step costs 2000 and no state is terminal. *)
Definition abyss : Env nat nat (list Q) :=
  {| getStartingState _ := 0%nat;
     getActions _ _ := [0%nat];
     do s a w := ((s, (-2000)%Q, false), w) |}.

(** A step-size function a caller might pass as [alpha]. *)
Definition no_step (n : Z) : outcome Q := Ok 0%Q.

Definition with_alpha (alpha : Z -> outcome Q) : Kwargs :=
  {| kw_t := None; kw_tStep := None; kw_alpha := Some alpha; kw_maxItr := None;
     kw_R_plus := None; kw_N_e := None |}.


(** [Agent()]: the constructor calls [clearExperience]. *)
Definition new_agent : Agent nat nat :=
  clearExperience {| nTable := ∅; transTable := ∅; uTable := ∅; results := [] |}.

(** A table with a recorded count of 0, which no strategy ever writes. *)
Definition zero_entry : gmap nat (gmap nat (gmap nat Z)) :=
  {[0%nat := {[0%nat := {[1%nat := 0%Z]}]}]}.

(** Tables in which state 1 already has utility 1. *)
Definition learned : Store nat nat (list Q) :=
  {| transs := ∅; utils := {[1%nat := 1%Q]}; freqs := ∅; world := [] |}.

(** Action 0 was observed once from state 0, action 1 never. *)
Definition one_observation : gmap nat (gmap nat (gmap nat Z)) :=
  {[0%nat := {[0%nat := {[1%nat := 1%Z]}]}]}.


(** The first pass of strategy B over [chain], from fresh tables. *)
Definition first_pass : outcome (Locals nat nat) * Store nat nat (list Q) :=
  adp_random_exploration_state_body chain (entry 0%nat [0%nat] 0 None)
                                    (fresh [1 # 2; 1 # 4]%Q).

Definition second_head : Locals nat nat :=
  match first_pass.1 with
  | Ok l => l
  | _ => entry 0%nat [] 0 None
  end.

(** The environment offers no action in any state. *)
Definition no_exit : Env nat nat (list Q) :=
  {| getStartingState _ := 0%nat;
     getActions _ _ := [];
     do s a w := ((s, 0%Q, true), w) |}.

(** An agent that saw action 0 lead from state 0 to state 1 once. *)
Definition seasoned : Agent nat nat :=
  {| nTable := {[1%nat := 1%Z]}; transTable := one_observation;
     uTable := {[1%nat := 1%Q]}; results := [] |}.

(** Successor counts 1 and 3 of one state-action pair. *)
Definition one_and_three : gmap nat Z := {[1%nat := 1%Z; 2%nat := 3%Z]}.

End Scenario.

(** * Properties *)

(** ** Outcomes and for-loops *)

Lemma for_append_Ok {A B} (f : A -> outcome B) (g : A -> B) (xs : list A) (acc : list B) :
  (forall x, x ∈ xs -> f x = Ok (g x)) ->
  for_append f xs acc = Ok (acc ++ map g xs).
Proof.
  revert acc. induction xs as [|x xs IH]; intros acc Hf; simpl.
  - by rewrite app_nil_r.
  - rewrite Hf by left. simpl. rewrite IH.
    + by rewrite <- app_assoc.
    + intros y Hy. apply Hf. by right.
Qed.

Lemma py_sum_Z_from (a : Z) (l : list Z) :
  Forall (fun c => (1 <= c)%Z) l -> (a + Z.of_nat (length l) <= foldl Z.add a l)%Z.
Proof.
  intros Hl. revert a. induction Hl as [|c l Hc _ IH]; intros a; simpl; [lia|].
  specialize (IH (a + c)%Z). lia.
Qed.

Lemma py_div_Ok (x : Q) (n : Z) :
  n <> 0%Z -> py_div x (inject_Z n) = Ok (x / inject_Z n)%Q.
Proof.
  intros Hn. unfold py_div.
  destruct (Qeq_bool (inject_Z n) 0) eqn:E; [|done].
  apply Qeq_bool_eq in E. unfold Qeq in E. simpl in E. lia.
Qed.

(** The default schedule: [50 / (49 + n)] for every visit count. *)
Lemma _alpha_default_schedule (n : Z) :
  (0 <= n)%Z -> _alpha n = Ok (50 / inject_Z (49 + n))%Q.
Proof. intros Hn. unfold _alpha. apply py_div_Ok. lia. Qed.

Section EstimateFacts.
Context {State Action : Type}.
Context `{Countable State} `{Countable Action} `{PyOrd Action}.
Implicit Types (transs : gmap State (gmap Action (gmap State Z))).
Implicit Types (utils : gmap State Q) (freq : gmap State Z).

Lemma positive_counts_freq_of transs (s : State) (ac : Action) :
  positive_counts transs ->
  map_Forall (fun _ c => (1 <= c)%Z) (freq_of transs s ac).
Proof.
  intros Hwf. unfold freq_of.
  destruct (transs !! s) as [by_action|] eqn:Es; simpl; [|apply map_Forall_empty].
  destruct (by_action !! ac) as [succ|] eqn:Ea; simpl; [|apply map_Forall_empty].
  exact (Hwf s by_action Es ac succ Ea).
Qed.

(** With positive counts, a total of 0 means that nothing is recorded. *)
Lemma count_of_zero_empty freq :
  map_Forall (fun _ c => (1 <= c)%Z) freq -> count_of freq = 0%Z -> freq = ∅.
Proof.
  intros Hpos Hn. apply map_to_list_empty_iff.
  assert (Hall : Forall (fun c => (1 <= c)%Z) (map_to_list freq).*2).
  { apply Forall_fmap, Forall_forall. intros [k c] Hin. simpl.
    apply (Hpos k), elem_of_map_to_list. exact Hin. }
  pose proof (py_sum_Z_from 0 _ Hall) as Hsum.
  unfold count_of, py_sum_Z in Hn. rewrite Hn in Hsum.
  destruct (map_to_list freq); [done|]. simpl in Hsum. lia.
Qed.

Lemma probs_of_Ok freq :
  map_Forall (fun _ c => (1 <= c)%Z) freq ->
  probs_of freq (count_of freq)
  = Ok (map (fun kv : State * Z => (kv.1, inject_Z kv.2 / inject_Z (count_of freq))%Q)
            (map_to_list freq)).
Proof.
  intros Hpos. unfold probs_of.
  destruct (decide (count_of freq = 0%Z)) as [Hn|Hn].
  - rewrite (count_of_zero_empty freq Hpos Hn), map_to_list_empty. done.
  - apply (for_append_Ok _ (fun kv : State * Z =>
             (kv.1, inject_Z kv.2 / inject_Z (count_of freq))%Q) _ []).
    intros kv _. by rewrite py_div_Ok.
Qed.

Lemma estimate_action_Ok transs utils (s : State) (ac : Action) :
  positive_counts transs ->
  estimate_action transs utils s ac
  = Ok (expected_utility utils (freq_of transs s ac), ac).
Proof.
  intros Hwf. unfold estimate_action.
  rewrite probs_of_Ok by by apply positive_counts_freq_of.
  simpl. unfold weighted, expected_utility. by rewrite map_map.
Qed.

Lemma estimate_action_optimistic_Ok transs utils (s : State) R_plus N_e (ac : Action) :
  positive_counts transs ->
  estimate_action_optimistic transs utils s R_plus N_e ac
  = Ok (optimistic_value transs utils s R_plus N_e ac, ac).
Proof.
  intros Hwf. unfold estimate_action_optimistic, optimistic_value.
  rewrite probs_of_Ok by by apply positive_counts_freq_of.
  simpl. unfold weighted, expected_utility. rewrite map_map.
  by destruct (_ <? _)%Z.
Qed.

Lemma _getEstimates_Ok transs utils (s : State) currActions :
  positive_counts transs ->
  _getEstimates transs utils s currActions
  = Ok (map (fun ac => (expected_utility utils (freq_of transs s ac), ac))
            (candidates transs s currActions)).
Proof.
  intros Hwf. unfold _getEstimates.
  apply (for_append_Ok _ (fun ac => (expected_utility utils (freq_of transs s ac), ac)) _ []).
  intros ac _. by apply estimate_action_Ok.
Qed.

Lemma _getEstimatesOptimistic_Ok transs utils (s : State) R_plus N_e currActions :
  positive_counts transs ->
  _getEstimatesOptimistic transs utils s R_plus N_e currActions
  = Ok (map (fun ac => (optimistic_value transs utils s R_plus N_e ac, ac))
            (candidates transs s currActions)).
Proof.
  intros Hwf. unfold _getEstimatesOptimistic.
  apply (for_append_Ok _ (fun ac => (optimistic_value transs utils s R_plus N_e ac, ac)) _ []).
  intros ac _. by apply estimate_action_optimistic_Ok.
Qed.

Lemma expected_utility_unseen transs utils (s : State) (ac : Action) :
  positive_counts transs ->
  count_of (freq_of transs s ac) = 0%Z ->
  expected_utility utils (freq_of transs s ac) = 0%Q.
Proof.
  intros Hwf Hn. unfold expected_utility.
  rewrite (count_of_zero_empty _ (positive_counts_freq_of _ s ac Hwf) Hn).
  by rewrite map_to_list_empty.
Qed.

Lemma estimate_action_unrecorded transs utils (s : State) (ac : Action) :
  freq_of transs s ac = ∅ ->
  count_of (freq_of transs s ac) = 0%Z /\
  estimate_action transs utils s ac = Ok (0%Q, ac).
Proof.
  intros Hnone. unfold estimate_action, probs_of, count_of.
  by rewrite Hnone, map_to_list_empty.
Qed.

Lemma estimate_action_optimistic_unrecorded transs utils (s : State) R_plus N_e (ac : Action) :
  freq_of transs s ac = ∅ ->
  estimate_action_optimistic transs utils s R_plus N_e ac
  = Ok (if (0 <? N_e)%Z then R_plus else 0%Q, ac).
Proof.
  intros Hnone. unfold estimate_action_optimistic, probs_of, count_of.
  rewrite Hnone, map_to_list_empty. by destruct N_e.
Qed.




(** The mapping the code looks up is the recorded one. *)
Lemma freq_of_recorded transs (s : State) (ac : Action) :
  freq_of transs s ac = recorded_successors transs s ac.
Proof.
  unfold freq_of, recorded_successors.
  destruct (transs !! s) as [by_action|]; simpl; [by destruct (by_action !! ac)|].
  by rewrite lookup_empty.
Qed.

Lemma count_of_recorded transs (s : State) (ac : Action) :
  count_of (freq_of transs s ac) = observation_count transs s ac.
Proof. unfold count_of, observation_count. by rewrite freq_of_recorded. Qed.


(** C8, amended.  The specification's statement holds on the transition
    models the strategies build, not on every transition model: a recorded
    count of 0 makes the total 0 while a successor is recorded, and the
    division is performed.  What holds: a candidate action for which no
    successor is recorded is estimated without any division, on any
    transition model: its plain estimate is 0, and the optimistic one is
    [R_plus] when [0 < N_e] and 0 otherwise.  On a transition model in
    which every recorded count is at least 1 a total observation count of
    zero means exactly that, and [_getEstimates] and
    [_getEstimatesOptimistic] return a list of estimates for every utility
    table, state and candidate list, in which every candidate with total
    count zero has the plain estimate 0. *)
Theorem C8_zero_count_is_guarded transs utils (s : State) R_plus N_e currActions :
  (forall ac : Action,
      recorded_successors transs s ac = ∅ ->
      observation_count transs s ac = 0%Z /\
      estimate_action transs utils s ac = Ok (0%Q, ac) /\
      estimate_action_optimistic transs utils s R_plus N_e ac
      = Ok (if (0 <? N_e)%Z then R_plus else 0%Q, ac)) /\
  (positive_counts transs ->
   exists ests opts,
     _getEstimates transs utils s currActions = Ok ests /\
     _getEstimatesOptimistic transs utils s R_plus N_e currActions = Ok opts /\
     forall (i : nat) (ac : Action),
       candidates transs s currActions !! i = Some ac ->
       observation_count transs s ac = 0%Z ->
       recorded_successors transs s ac = ∅ /\
       ests !! i = Some (0%Q, ac) /\
       opts !! i = Some (if (0 <? N_e)%Z then R_plus else 0%Q, ac)).
Proof.
  split.
  - intros ac Hnone. rewrite <- freq_of_recorded in Hnone.
    destruct (estimate_action_unrecorded transs utils s ac Hnone) as [Hn He].
    rewrite <- count_of_recorded.
    split; [done|]. split; [done|]. by apply estimate_action_optimistic_unrecorded.
  - intros Hwf. eexists _, _.
    split; [by apply _getEstimates_Ok|].
    split; [by apply _getEstimatesOptimistic_Ok|].
    intros i ac Hi Hn. rewrite <- count_of_recorded in Hn.
    rewrite <- freq_of_recorded. split; [|split].
    + apply count_of_zero_empty; [by apply positive_counts_freq_of|done].
    + rewrite list_lookup_fmap, Hi. simpl. by rewrite expected_utility_unseen.
    + rewrite list_lookup_fmap, Hi. simpl. unfold optimistic_value.
      by rewrite Hn, expected_utility_unseen.
Qed.

End EstimateFacts.

Lemma Qlt_bool_spec (x y : Q) : Qlt_bool x y = true <-> (x < y)%Q.
Proof.
  unfold Qlt_bool. rewrite negb_true_iff.
  destruct (Qle_bool y x) eqn:E.
  - apply Qle_bool_iff in E. split; [done|]. intros Hlt. lra.
  - split; [|done]. intros _. destruct (Qlt_le_dec x y) as [Hlt|Hle]; [done|].
    apply Qle_bool_iff in Hle. congruence.
Qed.

(** ** Maximum selection *)

Section MaxFacts.
Context {Action : Type} `{PyOrd Action}.
Hypothesis lt_irrefl : forall a : Action, py_lt a a = false.
Hypothesis lt_trans : forall a b c : Action,
  py_lt a b = true -> py_lt b c = true -> py_lt a c = true.
Hypothesis lt_total : forall a b : Action, py_lt a b = true \/ a = b \/ py_lt b a = true.

Lemma tuple_gt_spec (x y : Q * Action) :
  tuple_gt x y = true <-> (y.1 < x.1)%Q \/ (x.1 == y.1)%Q /\ py_lt y.2 x.2 = true.
Proof.
  unfold tuple_gt. destruct (Qeq_bool x.1 y.1) eqn:E.
  - apply Qeq_bool_iff in E. split; [by right|]. intros [Hlt|[_ Hlt]]; [lra|done].
  - rewrite Qlt_bool_spec. split; [by left|]. intros [Hlt|[Heq _]]; [done|].
    apply Qeq_bool_iff in Heq. congruence.
Qed.

Lemma tuple_gt_irrefl (x : Q * Action) : tuple_gt x x = false.
Proof.
  destruct (tuple_gt x x) eqn:E; [|done].
  apply tuple_gt_spec in E as [Hlt|[_ Hlt]]; [lra|]. by rewrite lt_irrefl in Hlt.
Qed.

Lemma tuple_gt_trans (x y z : Q * Action) :
  tuple_gt x y = true -> tuple_gt y z = true -> tuple_gt x z = true.
Proof.
  rewrite !tuple_gt_spec. intros [Hxy|[Hxy Lxy]] [Hyz|[Hyz Lyz]].
  - left. lra.
  - left. lra.
  - left. lra.
  - right. split; [lra|]. by apply (lt_trans _ y.2).
Qed.

Lemma tuple_gt_cotrans (x y z : Q * Action) :
  tuple_gt x z = true -> tuple_gt x y = true \/ tuple_gt y z = true.
Proof.
  rewrite !tuple_gt_spec. intros Hxz.
  destruct (Q_dec y.1 x.1) as [[Hlt|Hgt]|Heq].
  - left. by left.
  - right. left. destruct Hxz as [?|[? _]]; lra.
  - destruct Hxz as [Hlt|[Hxz Lzx]].
    + right. left. lra.
    + destruct (lt_total y.2 x.2) as [Lyx|[Eyx|Lxy]].
      * left. right. split; [lra|done].
      * right. right. split; [lra|]. by rewrite Eyx.
      * right. right. split; [lra|]. by apply (lt_trans _ x.2).
Qed.

Lemma running_max_spec (rest : list (Q * Action)) (x : Q * Action) :
  let m := foldl (fun m item => if tuple_gt item m then item else m) x rest in
  m ∈ x :: rest /\ forall y, y ∈ x :: rest -> tuple_gt y m = false.
Proof.
  revert x. induction rest as [|y rest IH]; intros x; simpl.
  - split; [by left|]. intros y Hy. apply list_elem_of_singleton in Hy as ->.
    apply tuple_gt_irrefl.
  - destruct (IH (if tuple_gt y x then y else x)) as [Hin Hmax]. simpl in Hin, Hmax.
    set (m := foldl _ _ rest) in *.
    assert (Hs : tuple_gt (if tuple_gt y x then y else x) m = false) by (apply Hmax; left).
    split.
    + apply elem_of_cons in Hin as [Hin|Hin]; [|by do 2 right].
      rewrite Hin. destruct (tuple_gt y x); [right; left|left].
    + intros z Hz. apply elem_of_cons in Hz as [->|Hz].
      * destruct (tuple_gt y x) eqn:Eyx; [|done].
        destruct (tuple_gt x m) eqn:Exm; [|done].
        by rewrite (tuple_gt_trans _ _ _ Eyx Exm) in Hs.
      * apply elem_of_cons in Hz as [->|Hz]; [|by apply Hmax; right].
        destruct (tuple_gt y x) eqn:Eyx; [done|].
        destruct (tuple_gt y m) eqn:Eym; [|done].
        destruct (tuple_gt_cotrans _ x _ Eym); congruence.
Qed.

Lemma py_max_spec (l : list (Q * Action)) (best : Q * Action) :
  py_max l = Ok best -> best ∈ l /\ forall y, y ∈ l -> tuple_gt y best = false.
Proof.
  destruct l as [|x rest]; [done|]. simpl. intros [= <-]. apply running_max_spec.
Qed.

(** C5 (as amended). [max] over (estimate, action) pairs, as used by
    [getPolicy] and by the strategies, is deterministic and does not depend on
    the order in which the candidates are seen: the selected pair has the
    maximal estimate, and among the candidates that attain it the one with
    the greatest action, in Python's order on actions, wins. *)
Theorem C5_greatest_action_wins_ties (l l' : list (Q * Action)) (best : Q * Action) :
  py_max l = Ok best ->
  (forall x, x ∈ l <-> x ∈ l') ->
  best ∈ l /\
  (forall x, x ∈ l ->
     (x.1 <= best.1)%Q /\ ((x.1 == best.1)%Q -> py_lt best.2 x.2 = false)) /\
  exists best', py_max l' = Ok best' /\ (best'.1 == best.1)%Q /\ best'.2 = best.2.
Proof.
  intros Hmax Hperm. destruct (py_max_spec _ _ Hmax) as [Hin Hge].
  split; [done|]. split.
  - intros x Hx. specialize (Hge x Hx).
    destruct (Qlt_le_dec best.1 x.1) as [Hlt|Hle].
    + assert (tuple_gt x best = true) by (apply tuple_gt_spec; by left). congruence.
    + split; [done|]. intros Heq.
      destruct (py_lt best.2 x.2) eqn:E; [|done].
      assert (tuple_gt x best = true) by (apply tuple_gt_spec; by right). congruence.
  - destruct l' as [|x' rest'] eqn:El'; [by apply Hperm in Hin; inversion Hin|].
    rewrite <- El' in *. assert (exists b, py_max l' = Ok b) as [best' Hmax'].
    { rewrite El'. simpl. eauto. }
    exists best'. split; [done|].
    destruct (py_max_spec _ _ Hmax') as [Hin' Hge'].
    assert (H1 : tuple_gt best best' = false) by (apply Hge', Hperm, Hin).
    assert (H2 : tuple_gt best' best = false) by (apply Hge, Hperm, Hin').
    assert (Heq : (best'.1 == best.1)%Q).
    { destruct (Q_dec best'.1 best.1) as [[Hlt|Hgt]|Heq]; [| |done].
      - assert (tuple_gt best best' = true) by (apply tuple_gt_spec; by left). congruence.
      - assert (tuple_gt best' best = true) by (apply tuple_gt_spec; by left). congruence. }
    split; [done|].
    destruct (lt_total best'.2 best.2) as [L|[E|L]]; [|done|].
    + assert (tuple_gt best best' = true) by (apply tuple_gt_spec; right; split; [lra|done]).
      congruence.
    + assert (tuple_gt best' best = true) by (apply tuple_gt_spec; by right). congruence.
Qed.
End MaxFacts.

(** ** The monad of the strategies *)

Section MonadFacts.
Context {State Action W : Type}.
Context `{Countable State} `{Countable Action} `{PyOrd Action} `{PyRuntime W}.
Local Abbreviation M := (M State Action W).
Local Abbreviation Store := (Store State Action W).
Local Abbreviation Env := (Env State Action W).
Local Abbreviation grows := (@freqs_grow State Action W _ _ _ _).
Local Abbreviation unchanged := (@same_tables State Action W _ _ _ _).
Local Abbreviation positive := (@stays_positive State Action W _ _ _ _).
Local Abbreviation inhabited := (@stays_inhabited State Action W _ _ _ _).
Implicit Types (transs : gmap State (gmap Action (gmap State Z))) (utils : gmap State Q).
Implicit Types (l : Locals State Action) (currActions : option (list Action)).

Lemma bind_Ok_inv {A B} (m : M A) (k : A -> M B) (s s' : Store) (b : B) :
  bind m k s = (Ok b, s') ->
  exists a s1, m s = (Ok a, s1) /\ k a s1 = (Ok b, s').
Proof.
  unfold bind. destruct (m s) as [[a|e|] s1]; intros Hk; try discriminate. eauto.
Qed.

Section Keeps.
Variable R : Store -> Store -> Prop.
Context `{!PreOrder R}.

Lemma keeps_ret {A} (a : A) : keeps R (ret a).
Proof. intros s. simpl. reflexivity. Qed.

Lemma keeps_lift {A} (o : outcome A) : keeps R (lift o).
Proof. intros s. simpl. reflexivity. Qed.

Lemma keeps_gets {A} (f : Store -> A) : keeps R (gets f).
Proof. intros s. simpl. reflexivity. Qed.

Lemma keeps_bind {A B} (m : M A) (k : A -> M B) :
  keeps R m -> (forall a, keeps R (k a)) -> keeps R (bind m k).
Proof.
  intros Hm Hk s. unfold bind. specialize (Hm s).
  destruct (m s) as [[a|e|] s1]; simpl in *; [|done|done].
  etrans; [exact Hm|apply Hk].
Qed.

Lemma keeps_modify (f : Store -> Store) : (forall s, R s (f s)) -> keeps R (modify f).
Proof. intros Hf s. simpl. apply Hf. Qed.

(** Computations that touch nothing but the world. *)
Hypothesis R_world : forall s w, R s (set_world w s).

Lemma keeps_random : keeps R random.
Proof. intros s. unfold random. destruct (random_random _). apply R_world. Qed.

Lemma keeps_random_choice {A} (seq : list A) : keeps R (random_choice seq).
Proof. apply keeps_bind; [apply keeps_random|]. intros r. apply keeps_lift. Qed.

Lemma keeps_env_do (env : Env) state action : keeps R (env_do env state action).
Proof. intros s. unfold env_do. destruct (do _ _ _ _). apply R_world. Qed.

Lemma keeps_best_estimate (state : State) actions : keeps R (best_estimate state actions).
Proof. intros s. simpl. reflexivity. Qed.

Lemma keeps_best_estimate_optimistic R_plus N_e (state : State) actions :
  keeps R (best_estimate_optimistic R_plus N_e state actions).
Proof. intros s. simpl. reflexivity. Qed.
End Keeps.

#[local] Instance same_tables_preorder : PreOrder unchanged.
Proof.
  split.
  - by intros s.
  - intros s1 s2 s3 (? & ? & ?) (? & ? & ?). repeat split; congruence.
Qed.

Lemma same_tables_world (s : Store) (w : W) : unchanged s (set_world w s).
Proof. done. Qed.

(** ** Frequency counts only grow *)

#[local] Instance freqs_grow_preorder : PreOrder grows.
Proof.
  split.
  - intros s state. split; [lia|done].
  - intros s1 s2 s3 H12 H23 state.
    destruct (H12 state) as [? ?], (H23 state) as [? ?]. split; [lia|auto].
Qed.

Lemma freqs_grow_same (s s' : Store) : freqs s' = freqs s -> grows s s'.
Proof. intros E state. rewrite E. split; [lia|done]. Qed.

Lemma freqs_grow_world (s : Store) (w : W) : grows s (set_world w s).
Proof. by apply freqs_grow_same. Qed.

Lemma keeps_count_visit (newState : State) : keeps grows (count_visit newState).
Proof.
  apply keeps_modify. intros s state. simpl.
  destruct (decide (newState = state)) as [->|Hne].
  - rewrite lookup_insert_eq. simpl. split; [lia|eauto].
  - rewrite lookup_insert_ne by done. split; [lia|done].
Qed.

Lemma keeps_count_transition (state : State) (a : Action) (newState : State) :
  keeps grows (count_transition state a newState).
Proof. apply keeps_modify. intros s. by apply freqs_grow_same. Qed.

Lemma keeps_store_utility (state : State) (v : Q) : keeps grows (store_utility state v).
Proof. apply keeps_modify. intros s. by apply freqs_grow_same. Qed.

Create HintDb keeps discriminated.
#[local] Hint Resolve keeps_ret keeps_lift keeps_gets keeps_random keeps_random_choice
  keeps_env_do keeps_count_visit keeps_count_transition keeps_store_utility
  keeps_best_estimate keeps_best_estimate_optimistic
  freqs_grow_preorder freqs_grow_world same_tables_preorder same_tables_world : keeps.

Ltac keeps_step :=
  match goal with
  | |- keeps _ (bind _ _) => apply keeps_bind; [apply _| |intros ?]
  | |- keeps _ (match ?r with pair _ _ => _ end) => destruct r
  | |- keeps _ (match ?o with Some _ => _ | None => _ end) => destruct o
  | |- keeps _ (if ?b then _ else _) => destruct b
  | |- keeps _ _ => solve [eauto with keeps]
  end.

Lemma keeps_learning_step (env : Env) best l bestAction :
  (forall state actions, keeps grows (best state actions)) ->
  keeps grows (learning_step env best l bestAction).
Proof. intros Hbest. unfold learning_step, env_getActions. repeat keeps_step. Qed.

Lemma keeps_episode_loop fuel body maxItr l :
  (forall l, keeps grows (body l)) ->
  keeps grows (episode_loop fuel body maxItr l).
Proof.
  intros Hbody. revert l. induction fuel as [|fuel IH]; intros l; simpl.
  - destruct (l_isTerminal l); eauto with keeps.
  - destruct (l_isTerminal l); [eauto with keeps|]. repeat keeps_step; auto.
Qed.

Lemma keeps_strategy_body st (env : Env) kwargs l :
  keeps grows (strategy_body st env kwargs l).
Proof.
  destruct st; simpl;
    unfold adp_random_exploration_body, adp_random_exploration_choose,
      adp_random_exploration_state_body, adp_random_exploration_state_choose,
      adp_optimistic_rewards_body, adp_optimistic_rewards_choose;
    repeat keeps_step; apply keeps_learning_step; eauto with keeps.
Qed.

Lemma keeps_strategy_init st (env : Env) kwargs :
  keeps grows (strategy_init st env kwargs).
Proof.
  destruct st; simpl;
    unfold adp_random_exploration_init, adp_random_exploration_state_init,
      adp_optimistic_rewards_init, env_getStartingState, env_getActions;
    repeat keeps_step.
Qed.

(** A strategy is its initial statements followed by its loop. *)
Lemma run_strategy_unfold st (env : Env) kwargs :
  run_strategy st env kwargs
  = bind (strategy_init st env kwargs)
      (episode_loop (iteration_bound (strategy_maxItr st kwargs))
                    (strategy_body st env kwargs) (strategy_maxItr st kwargs)).
Proof. by destruct st. Qed.

Lemma keeps_run_strategy st (env : Env) kwargs :
  keeps grows (run_strategy st env kwargs).
Proof.
  rewrite run_strategy_unfold. apply keeps_bind; [apply _|apply keeps_strategy_init|].
  intros l. apply keeps_episode_loop. intros l'. apply keeps_strategy_body.
Qed.

Lemma keeps_learn_trials_gen (R : relation Store) `{!PreOrder R} alg (env : Env) kwargs
    trials itrs :
  keeps R (alg env kwargs) ->
  keeps R (learn_trials alg env kwargs trials itrs).
Proof.
  intros Halg. revert itrs. induction trials as [|n IH]; intros itrs; simpl.
  - by apply keeps_ret.
  - apply keeps_bind; [done|done|]. intros k. apply IH.
Qed.

Lemma keeps_learn_trials alg (env : Env) kwargs trials itrs :
  keeps grows (alg env kwargs) ->
  keeps grows (learn_trials alg env kwargs trials itrs).
Proof. apply keeps_learn_trials_gen, _. Qed.

Lemma keeps_solve fuel (env : Env) policy : keeps unchanged (solve fuel env policy).
Proof.
  unfold solve, env_getStartingState. apply keeps_bind; [apply _|eauto with keeps|].
  intros state. generalize (@nil Action) 0%Q. revert state.
  induction fuel as [|fuel IH]; intros state actions energy; simpl; [eauto with keeps|].
  unfold solve_choose, env_getActions. repeat keeps_step.
Qed.

(** C10. Frequency counts never decrease while an agent learns: every pass
    of a strategy's loop, every episode and every run of trials inside
    [learn] leaves a frequency table that continues the one it started from
    (no entry is lost, no count read with [freqs.get(state, 0)] decreases),
    whatever the outcome of the pass or episode; [solve] does not touch the
    tables.  The table an agent holds after [learn] is the one its trials
    built from the cleared tables, and [clearExperience] leaves the frequency
    table, the transition model, the utility table and the results empty. *)
Theorem C10_counts_grow_until_cleared :
  (forall st (env : Env) kwargs l s,
      counts_grow (freqs s) (freqs (strategy_body st env kwargs l s).2)) /\
  (forall st (env : Env) kwargs s,
      counts_grow (freqs s) (freqs (run_strategy st env kwargs s).2)) /\
  (forall st (env : Env) kwargs trials itrs s,
      counts_grow (freqs s)
                  (freqs (learn_trials (run_strategy st) env kwargs trials itrs s).2)) /\
  (forall fuel (env : Env) policy s,
      freqs (solve fuel env policy s).2 = freqs s) /\
  (forall st (self : Agent State Action) (env : Env) numOfTrials kwargs w,
      let cleared := store_of (clearExperience self) w in
      let trials := learn_trials (run_strategy st) env kwargs (Z.to_nat numOfTrials) 0 in
      nTable (learn self env (run_strategy st) numOfTrials kwargs w).1.2
      = freqs (trials cleared).2) /\
  (forall self : Agent State Action,
      nTable (clearExperience self) = ∅ /\
      transTable (clearExperience self) = ∅ /\
      uTable (clearExperience self) = ∅ /\
      results (clearExperience self) = []).
Proof.
  split; [|split; [|split; [|split; [|split]]]].
  - intros. apply keeps_strategy_body.
  - intros. apply keeps_run_strategy.
  - intros. apply keeps_learn_trials, keeps_run_strategy.
  - intros fuel env policy s. by destruct (keeps_solve fuel env policy s) as (_ & _ & ?).
  - intros. unfold learn. fold cleared trials. by destruct (trials cleared).
  - done.
Qed.

Lemma learning_step_inv (env : Env) est l act s l' s' :
  learning_step env
    (fun state actions s =>
       (obind (est (transs s) (utils s) state (Some actions)) py_max, s))
    l act s = (Ok l', s') ->
  exists (new_reward rewardEstimate a : Q) (b : Action),
    do env (l_state l) act (world s)
      = ((l_state l', new_reward, l_isTerminal l'), world s') /\
    freqs s' = <[l_state l' := (default 0 (freqs s !! l_state l') + 1)%Z]> (freqs s) /\
    obind (est (transs s') (utils s) (l_state l)
               (Some (getActions env (world s') (l_state l)))) py_max
      = Ok (rewardEstimate, b) /\
    _alpha (default 0%Z (freqs s' !! l_state l)) = Ok a /\
    utils s' = <[l_state l := (l_reward l + a * rewardEstimate)%Q]> (utils s) /\
    l_reward l' = new_reward /\
    l_itr l' = (l_itr l + 1)%Z /\
    l_actions l' = getActions env (world s') (l_state l') /\
    is_Some (l_bestAction l').
Proof.
  unfold learning_step. intros Hstep.
  apply bind_Ok_inv in Hstep as (res & s1 & Hdo & Hstep).
  unfold env_do in Hdo.
  destruct (do env (l_state l) act (world s)) as [[[newState new_reward] term] w1] eqn:Edo.
  injection Hdo as <- <-.
  apply bind_Ok_inv in Hstep as ([] & s2 & [= <-] & Hstep).
  apply bind_Ok_inv in Hstep as ([] & s3 & [= <-] & Hstep).
  apply bind_Ok_inv in Hstep as (actions & s4 & [= <- <-] & Hstep).
  apply bind_Ok_inv in Hstep as ([rewardEstimate b] & s5 & Hest & Hstep).
  injection Hest as Hest <-.
  apply bind_Ok_inv in Hstep as (n & s6 & [= <- <-] & Hstep).
  apply bind_Ok_inv in Hstep as (a & s7 & Ha & Hstep).
  injection Ha as Ha <-.
  apply bind_Ok_inv in Hstep as ([] & s8 & [= <-] & Hstep).
  apply bind_Ok_inv in Hstep as (new_actions & s9 & [= <- <-] & Hstep).
  apply bind_Ok_inv in Hstep as ([rewardEstimate' b'] & s10 & Hest' & Hstep).
  injection Hest' as Hest' <-.
  injection Hstep as <- <-. simpl in *.
  exists new_reward, rewardEstimate, a, b. repeat split; eauto.
Qed.

Lemma keeps_adp_random_exploration_choose (R : relation Store) `{!PreOrder R}
    (l : Locals State Action) :
  (forall s w, R s (set_world w s)) -> keeps R (adp_random_exploration_choose l).
Proof. intros HR. unfold adp_random_exploration_choose. repeat keeps_step. Qed.

Lemma keeps_adp_random_exploration_state_choose (R : relation Store) `{!PreOrder R}
    (l : Locals State Action) :
  (forall s w, R s (set_world w s)) -> keeps R (adp_random_exploration_state_choose l).
Proof. intros HR. unfold adp_random_exploration_state_choose. repeat keeps_step. Qed.

Lemma keeps_adp_optimistic_rewards_choose (R : relation Store) `{!PreOrder R}
    (l : Locals State Action) :
  (forall s w, R s (set_world w s)) -> keeps R (adp_optimistic_rewards_choose l).
Proof. intros HR. unfold adp_optimistic_rewards_choose. repeat keeps_step. Qed.

(** Every pass of a loop body is a choice of action, which leaves the tables
    alone, followed by the shared learning step. *)
Lemma strategy_body_inv st (env : Env) kwargs l s l' s' :
  strategy_body st env kwargs l s = (Ok l', s') ->
  exists bestAction s1 l1,
    unchanged s s1 /\
    learning_step env
      (fun state actions s =>
         (obind (strategy_estimates st kwargs (transs s) (utils s) state (Some actions))
                py_max, s))
      l bestAction s1 = (Ok l1, s') /\
    l_state l' = l_state l1 /\ l_actions l' = l_actions l1 /\
    l_reward l' = l_reward l1 /\ l_bestAction l' = l_bestAction l1 /\
    l_itr l' = l_itr l1 /\ l_isTerminal l' = l_isTerminal l1.
Proof.
  destruct st; simpl; intros Hbody.
  - apply bind_Ok_inv in Hbody as (act & s1 & Hchoose & Hbody).
    apply bind_Ok_inv in Hbody as (l1 & s2 & Hstep & [= <- <-]).
    exists act, s1, l1. split; [|by repeat split].
    pose proof (keeps_adp_random_exploration_choose unchanged l same_tables_world s) as Hk.
    by rewrite Hchoose in Hk.
  - apply bind_Ok_inv in Hbody as (act & s1 & Hchoose & Hstep).
    exists act, s1, l'. split; [|by repeat split].
    pose proof (keeps_adp_random_exploration_state_choose unchanged l
                  same_tables_world s) as Hk.
    by rewrite Hchoose in Hk.
  - apply bind_Ok_inv in Hbody as (act & s1 & Hchoose & Hstep).
    exists act, s1, l'. split; [|by repeat split].
    pose proof (keeps_adp_optimistic_rewards_choose unchanged l same_tables_world s) as Hk.
    by rewrite Hchoose in Hk.
Qed.

Lemma strategy_init_reward st (env : Env) kwargs s l0 s0 :
  strategy_init st env kwargs s = (Ok l0, s0) ->
  l_reward l0 = 0%Q /\ l_itr l0 = 0%Z /\ l_isTerminal l0 = false /\
  l_actions l0 = getActions env (world s0) (l_state l0) /\
  (st = RandomExplorationState -> l_bestAction l0 = None).
Proof.
  destruct st; simpl; intros Hinit.
  - apply bind_Ok_inv in Hinit as (state & s1 & [= <- <-] & Hinit).
    apply bind_Ok_inv in Hinit as (actions & s2 & [= <- <-] & Hinit).
    apply bind_Ok_inv in Hinit as (len & s3 & [= <- <-] & Hinit).
    destruct (0 <? _)%nat.
    + apply bind_Ok_inv in Hinit as (est & s4 & Hest & [= <- <-]).
      injection Hest as _ <-. by repeat split.
    + injection Hinit as <- <-. by repeat split.
  - apply bind_Ok_inv in Hinit as (state & s1 & [= <- <-] & Hinit).
    apply bind_Ok_inv in Hinit as (actions & s2 & [= <- <-] & Hinit).
    injection Hinit as <- <-. by repeat split.
  - apply bind_Ok_inv in Hinit as (state & s1 & [= <- <-] & Hinit).
    apply bind_Ok_inv in Hinit as (actions & s2 & [= <- <-] & Hinit).
    apply bind_Ok_inv in Hinit as (len & s3 & [= <- <-] & Hinit).
    destruct (0 <? _)%nat.
    + apply bind_Ok_inv in Hinit as (est & s4 & Hest & [= <- <-]).
      injection Hest as _ <-. by repeat split.
    + injection Hinit as <- <-. by repeat split.
Qed.

(** C6. For each of the three strategies: the loop is entered with
    [reward = 0]; and a pass of the loop body that executes [bestAction] and
    observes [(newState, new_reward, isTerminal)] increments the frequency
    count of [newState] and of no other state, and sets
    [utils[state] = reward + _alpha(freqs.get(state, 0)) * rewardEstimate],
    where [state] is the state the action was taken in, [reward] is the
    value carried into the pass (not [new_reward], which is carried into the
    next pass), the count is read after the increment, and [rewardEstimate]
    is the maximum over the strategy's estimates for [state] under the just
    updated transition model and the utilities before the update. *)
Theorem C6_entered_state_counted_lagged_reward_used st (env : Env) kwargs :
  (forall s l0 s0,
      strategy_init st env kwargs s = (Ok l0, s0) -> l_reward l0 = 0%Q) /\
  (forall l s l' s',
      strategy_body st env kwargs l s = (Ok l', s') ->
      exists (bestAction : Action) (w : W) (new_reward rewardEstimate a : Q) (b : Action),
        do env (l_state l) bestAction w
          = ((l_state l', new_reward, l_isTerminal l'), world s') /\
        freqs s' = <[l_state l' := (default 0 (freqs s !! l_state l') + 1)%Z]> (freqs s) /\
        obind (strategy_estimates st kwargs (transs s') (utils s) (l_state l)
                 (Some (getActions env (world s') (l_state l)))) py_max
          = Ok (rewardEstimate, b) /\
        _alpha (default 0%Z (freqs s' !! l_state l)) = Ok a /\
        utils s' = <[l_state l := (l_reward l + a * rewardEstimate)%Q]> (utils s) /\
        l_reward l' = new_reward).
Proof.
  split.
  - intros s l0 s0 Hinit. by apply strategy_init_reward in Hinit as [? _].
  - intros l s l' s' Hbody.
    apply strategy_body_inv in Hbody
      as (act & s1 & l1 & (Ht & Hu & Hf) & Hstep & Hst & _ & Hrw & _ & _ & Htm).
    apply learning_step_inv in Hstep
      as (new_reward & est & a & b & Hdo & Hfreqs & Hest & Ha & Hutils & Hr & _).
    rewrite Hst, Htm, Hrw. rewrite Hu in Hest, Hutils. rewrite Hf in Hfreqs.
    exists act, (world s1), new_reward, est, a, b. by repeat split.
Qed.

(** ** The strategies maintain the invariant of the transition model *)

#[local] Instance stays_positive_preorder : PreOrder positive.
Proof.
  split.
  - intros s Hwf. exact Hwf.
  - intros s1 s2 s3 H12 H23 Hwf. apply H23, H12, Hwf.
Qed.

Lemma stays_positive_same (s s' : Store) : transs s' = transs s -> positive s s'.
Proof. intros E Hwf. by rewrite E. Qed.

Lemma stays_positive_world (s : Store) (w : W) : positive s (set_world w s).
Proof. by apply stays_positive_same. Qed.

Lemma positive_count_visit (newState : State) : keeps positive (count_visit newState).
Proof. apply keeps_modify. intros s. by apply stays_positive_same. Qed.

Lemma positive_store_utility (state : State) (v : Q) :
  keeps positive (store_utility state v).
Proof. apply keeps_modify. intros s. by apply stays_positive_same. Qed.

Lemma positive_count_transition (state : State) (a : Action) (newState : State) :
  keeps positive (count_transition state a newState).
Proof.
  apply keeps_modify. intros s Hwf. simpl.
  assert (Hby : map_Forall (fun _ successors =>
            map_Forall (fun _ c => (1 <= c)%Z) (successors : gmap State Z))
            (default ∅ (transs s !! state))).
  { destruct (transs s !! state) as [by_action|] eqn:Es; simpl; [|apply map_Forall_empty].
    exact (Hwf state by_action Es). }
  assert (Hsucc : map_Forall (fun _ c => (1 <= c)%Z)
            (default ∅ (default ∅ (transs s !! state) !! a))).
  { destruct (default ∅ (transs s !! state) !! a) as [succ|] eqn:Ea; simpl;
      [|apply map_Forall_empty].
    exact (Hby a succ Ea). }
  apply map_Forall_insert_2; [|done].
  apply map_Forall_insert_2; [|done].
  apply map_Forall_insert_2; [|done].
  destruct (default ∅ (default ∅ (transs s !! state) !! a) !! newState) as [c|] eqn:Ec;
    simpl; [|lia].
  specialize (Hsucc newState c Ec). simpl in Hsucc. lia.
Qed.

#[local] Hint Resolve stays_positive_preorder stays_positive_world positive_count_visit
  positive_store_utility positive_count_transition : keeps.

Lemma positive_run_strategy st (env : Env) kwargs :
  keeps positive (run_strategy st env kwargs).
Proof.
  rewrite run_strategy_unfold. apply keeps_bind; [apply _| |].
  - destruct st; simpl;
      unfold adp_random_exploration_init, adp_random_exploration_state_init,
        adp_optimistic_rewards_init, env_getStartingState, env_getActions;
      repeat keeps_step.
  - intros l0. generalize (iteration_bound (strategy_maxItr st kwargs)). intros fuel.
    revert l0. induction fuel as [|fuel IH]; intros l; simpl.
    + destruct (l_isTerminal l); eauto with keeps.
    + destruct (l_isTerminal l); [eauto with keeps|].
      apply keeps_bind; [apply _| |intros l'; destruct (_ <=? _)%Z; eauto with keeps].
      destruct st; simpl;
        unfold adp_random_exploration_body, adp_random_exploration_choose,
          adp_random_exploration_state_body, adp_random_exploration_state_choose,
          adp_optimistic_rewards_body, adp_optimistic_rewards_choose, learning_step,
          env_getActions;
        repeat keeps_step.
Qed.

(** The transition model an agent holds after [learn] has positive counts. *)
Lemma learn_positive_counts st (self : Agent State Action) (env : Env) numOfTrials kwargs w :
  positive_counts (transTable (learn self env (run_strategy st) numOfTrials kwargs w).1.2).
Proof.
  unfold learn.
  pose proof (keeps_learn_trials_gen positive (run_strategy st) env kwargs
                (Z.to_nat numOfTrials) 0 (positive_run_strategy st env kwargs)
                (store_of (clearExperience self) w)) as Hk.
  destruct (learn_trials _ _ _ _ _ _) as [o s]. simpl in *.
  apply Hk. apply map_Forall_empty.
Qed.

(** ** Episodes end within their iteration bound *)

Lemma obind_finishes {A B} (o : outcome A) (k : A -> outcome B) :
  o <> OutOfFuel -> (forall a, k a <> OutOfFuel) -> obind o k <> OutOfFuel.
Proof. destruct o; simpl; auto. Qed.

Lemma for_append_finishes {A B} (f : A -> outcome B) (xs : list A) (acc : list B) :
  (forall x, f x <> OutOfFuel) -> for_append f xs acc <> OutOfFuel.
Proof.
  intros Hf. revert acc. induction xs as [|x xs IH]; intros acc; simpl; [done|].
  apply obind_finishes; auto.
Qed.

Lemma py_div_finishes (x y : Q) : py_div x y <> OutOfFuel.
Proof. unfold py_div. by destruct (Qeq_bool y 0). Qed.

Lemma py_max_finishes (l : list (Q * Action)) : py_max l <> OutOfFuel.
Proof. by destruct l. Qed.

Lemma probs_of_finishes (freq : gmap State Z) n : probs_of freq n <> OutOfFuel.
Proof.
  apply for_append_finishes. intros kv.
  apply obind_finishes; [apply py_div_finishes|done].
Qed.

Lemma _getEstimates_finishes transs utils (state : State) currActions :
  _getEstimates transs utils state currActions <> OutOfFuel.
Proof.
  apply for_append_finishes. intros ac.
  apply obind_finishes; [apply probs_of_finishes|done].
Qed.

Lemma _getEstimatesOptimistic_finishes transs utils (state : State) R_plus N_e currActions :
  _getEstimatesOptimistic transs utils state R_plus N_e currActions <> OutOfFuel.
Proof.
  apply for_append_finishes. intros ac.
  apply obind_finishes; [apply probs_of_finishes|]. intros probs. by destruct (_ <? _)%Z.
Qed.

Lemma finishes_ret {A} (a : A) : finishes (ret a : M A).
Proof. by intros s. Qed.

Lemma finishes_gets {A} (f : Store -> A) : finishes (gets f).
Proof. by intros s. Qed.

Lemma finishes_modify (f : Store -> Store) : finishes (modify f).
Proof. by intros s. Qed.

Lemma finishes_lift {A} (o : outcome A) : o <> OutOfFuel -> finishes (lift o : M A).
Proof. by intros Ho s. Qed.

Lemma finishes_bind {A B} (m : M A) (k : A -> M B) :
  finishes m -> (forall a, finishes (k a)) -> finishes (bind m k).
Proof.
  intros Hm Hk s. unfold bind. specialize (Hm s).
  destruct (m s) as [[a|e|] s1]; simpl in *; [apply Hk|done|done].
Qed.

Lemma finishes_random : finishes (random : M Q).
Proof. intros s. unfold random. by destruct (random_random _). Qed.

Lemma finishes_random_choice {A} (seq : list A) : finishes (random_choice seq : M A).
Proof.
  apply finishes_bind; [apply finishes_random|]. intros r.
  apply finishes_lift. by destruct (seq !! _).
Qed.

Lemma finishes_env_do (env : Env) state action : finishes (env_do env state action).
Proof. intros s. unfold env_do. by destruct (do _ _ _ _). Qed.

Lemma finishes_best_estimate (state : State) (actions : list Action) :
  finishes (best_estimate state actions : M (Q * Action)).
Proof.
  intros s. simpl. apply obind_finishes; [apply _getEstimates_finishes|].
  intros ests. apply py_max_finishes.
Qed.

Lemma finishes_best_estimate_optimistic R_plus N_e (state : State) (actions : list Action) :
  finishes (best_estimate_optimistic R_plus N_e state actions : M (Q * Action)).
Proof.
  intros s. simpl. apply obind_finishes; [apply _getEstimatesOptimistic_finishes|].
  intros ests. apply py_max_finishes.
Qed.

Create HintDb finishes discriminated.
#[local] Hint Resolve finishes_ret finishes_gets finishes_modify finishes_random
  finishes_random_choice finishes_env_do finishes_best_estimate
  finishes_best_estimate_optimistic py_div_finishes : finishes.

Ltac finishes_step :=
  match goal with
  | |- finishes (bind _ _) => apply finishes_bind; [|intros ?]
  | |- finishes (lift _) => apply finishes_lift
  | |- finishes (match ?r with pair _ _ => _ end) => destruct r
  | |- finishes (match ?o with Some _ => _ | None => _ end) => destruct o
  | |- finishes (if ?b then _ else _) => destruct b
  | |- (match ?o with Some _ => _ | None => _ end) <> OutOfFuel => by destruct o
  | |- finishes _ => solve [eauto with finishes]
  | |- _ <> OutOfFuel => solve [eauto with finishes]
  end.

Lemma finishes_learning_step (env : Env) best l bestAction :
  (forall state actions, finishes (best state actions)) ->
  finishes (learning_step env best l bestAction).
Proof.
  intros Hbest. unfold learning_step, env_getActions, count_visit, count_transition,
    store_utility, _alpha.
  repeat finishes_step.
Qed.

Lemma finishes_strategy_body st (env : Env) kwargs l :
  finishes (strategy_body st env kwargs l).
Proof.
  destruct st; simpl;
    unfold adp_random_exploration_body, adp_random_exploration_choose,
      adp_random_exploration_state_body, adp_random_exploration_state_choose,
      adp_optimistic_rewards_body, adp_optimistic_rewards_choose;
    repeat finishes_step; apply finishes_learning_step; eauto with finishes.
Qed.

Lemma finishes_strategy_init st (env : Env) kwargs :
  finishes (strategy_init st env kwargs).
Proof.
  destruct st; simpl;
    unfold adp_random_exploration_init, adp_random_exploration_state_init,
      adp_optimistic_rewards_init, env_getStartingState, env_getActions;
    repeat finishes_step.
Qed.

Lemma strategy_body_itr st (env : Env) kwargs l s l' s' :
  strategy_body st env kwargs l s = (Ok l', s') -> l_itr l' = (l_itr l + 1)%Z.
Proof.
  intros Hbody.
  apply strategy_body_inv in Hbody as (act & s1 & l1 & _ & Hstep & _ & _ & _ & _ & Hitr & _).
  apply learning_step_inv in Hstep as (? & ? & ? & ? & _ & _ & _ & _ & _ & _ & Hitr1 & _).
  congruence.
Qed.

Lemma finishes_episode_loop st (env : Env) kwargs fuel l :
  (strategy_maxItr st kwargs - l_itr l <= Z.of_nat fuel)%Z ->
  (1 <= fuel)%nat ->
  finishes (episode_loop fuel (strategy_body st env kwargs) (strategy_maxItr st kwargs) l).
Proof.
  revert l. induction fuel as [|fuel IH]; intros l Hbound Hfuel s; [lia|].
  simpl. destruct (l_isTerminal l); [done|]. unfold bind.
  pose proof (finishes_strategy_body st env kwargs l s) as Hbody.
  destruct (strategy_body st env kwargs l s) as [[l'|e|] s1] eqn:Eb; simpl in *; [|done|done].
  apply strategy_body_itr in Eb.
  destruct (strategy_maxItr st kwargs <=? l_itr l')%Z eqn:Eitr; [done|].
  apply Z.leb_gt in Eitr. apply IH; lia.
Qed.

(** The three strategies never exhaust the budget of the model: an episode
    returns its iteration count or raises. *)
Lemma run_strategy_finishes st (env : Env) kwargs : finishes (run_strategy st env kwargs).
Proof.
  rewrite run_strategy_unfold. intros s. unfold bind.
  pose proof (finishes_strategy_init st env kwargs s) as Hinit.
  destruct (strategy_init st env kwargs s) as [[l|e|] s1] eqn:Ei; simpl in *; [|done|done].
  apply strategy_init_reward in Ei as (_ & Hitr & _).
  apply finishes_episode_loop; unfold iteration_bound; lia.
Qed.

(** ** Exploration in strategy B *)


Lemma experience_ge_1 (f : gmap State Z) : (1 <= experience f)%Q.
Proof.
  unfold experience. destruct (size f =? 0)%nat eqn:E; [lra|].
  apply Nat.eqb_neq in E. unfold Qle. simpl. lia.
Qed.

Lemma py_div_pos (x y : Q) : (0 < y)%Q -> py_div x y = Ok (x / y)%Q.
Proof.
  intros Hy. unfold py_div. destruct (Qeq_bool y 0) eqn:E; [|done].
  apply Qeq_bool_eq in E. lra.
Qed.







(** ** [random.choice] *)

Lemma random_choice_inv {A} (seq : list A) (s s' : Store) (a : A) :
  random_choice seq s = (Ok a, s') ->
  a ∈ seq /\ exists r, random_random (world s) = (r, world s') /\
    seq !! Z.to_nat (Qfloor (r * inject_Z (Z.of_nat (length seq)))) = Some a.
Proof.
  unfold random_choice, bind, random, lift.
  destruct (random_random (world s)) as [r w] eqn:Er.
  destruct (seq !! _) as [a'|] eqn:Ea; [|done]. intros [= <- <-].
  split; [by eapply list_elem_of_lookup_2|]. exists r. by split.
Qed.

(** A draw in [0, 1) selects an element of a non-empty sequence. *)
Lemma random_choice_Ok {A} (seq : list A) (s : Store) :
  (0 <= (random_random (world s)).1 < 1)%Q ->
  seq <> [] ->
  exists a, a ∈ seq /\
    random_choice seq s = (Ok a, set_world (random_random (world s)).2 s).
Proof.
  intros [Hr0 Hr1] Hne.
  unfold random_choice, bind, random, lift.
  destruct (random_random (world s)) as [r w]. simpl in Hr0, Hr1.
  set (len := inject_Z (Z.of_nat (length seq))).
  assert (Hlen : (1 <= len)%Q).
  { unfold len, Qle. simpl. destruct seq; [done|]. simpl length. lia. }
  assert (Hlo : (0 <= Qfloor (r * len))%Z).
  { change 0%Z with (Qfloor (inject_Z 0)). apply Qfloor_resp_le.
    change (inject_Z 0) with 0%Q. nra. }
  assert (Hhi : (Qfloor (r * len) < Z.of_nat (length seq))%Z).
  { rewrite Zlt_Qlt. fold len.
    apply Qle_lt_trans with (r * len)%Q; [apply Qfloor_le|nra]. }
  destruct (lookup_lt_is_Some_2 seq (Z.to_nat (Qfloor (r * len)))) as [a Ha]; [lia|].
  exists a. split; [by eapply list_elem_of_lookup_2|].
  cbv beta iota. by rewrite Ha.
Qed.

(** ** [solve] *)

Lemma solve_choose_takes (env : Env) policy state s act s1 :
  solve_choose env policy state s = (Ok act, s1) <->
  solve_takes env policy state s act s1.
Proof.
  unfold solve_choose. split.
  - destruct (policy !! state) as [a|] eqn:Ep.
    + intros [= <- <-]. by constructor.
    + intros Hc. apply bind_Ok_inv in Hc as (actions & s2 & [= <- <-] & Hc).
      by apply takes_random.
  - intros [s0 a Hp|s0 a s2 Hp Hc]; rewrite Hp; [done|].
    unfold bind, env_getActions, gets. exact Hc.
Qed.

Lemma solve_loop_sound fuel (env : Env) policy state actions energy s res s' :
  solve_loop fuel env policy state actions energy s = (Ok res, s') ->
  solve_run env policy state actions energy s res s'.
Proof.
  revert state actions energy s.
  induction fuel as [|fuel IH]; intros state actions energy s; simpl; [done|].
  intros Hloop.
  apply bind_Ok_inv in Hloop as (act & s1 & Hchoose & Hloop).
  apply solve_choose_takes in Hchoose.
  apply bind_Ok_inv in Hloop as (r & s2 & Hdo & Hloop).
  unfold env_do in Hdo.
  destruct (do env state act (world s1)) as [[[state' reward] term] w] eqn:Edo.
  injection Hdo as <- <-.
  destruct (Qlt_bool (energy + reward) (-1000)) eqn:Elt.
  - injection Hloop as <- <-. eapply run_stop; eauto.
    left. by apply Qlt_bool_spec.
  - destruct term.
    + injection Hloop as <- <-. eapply run_stop; eauto.
    + eapply run_step; eauto.
      intros Hlt. apply Qlt_bool_spec in Hlt. congruence.
Qed.

Lemma solve_loop_complete (env : Env) policy state actions energy s res s' :
  solve_run env policy state actions energy s res s' ->
  exists fuel0, forall fuel, (fuel0 <= fuel)%nat ->
    solve_loop fuel env policy state actions energy s = (Ok res, s').
Proof.
  induction 1 as [state actions energy s act s1 state' reward term w Htakes Hdo Hstop
                 |state actions energy s act s1 state' reward w res s' Htakes Hdo Hgo _ IH].
  - exists 1%nat. intros [|fuel] Hfuel; [lia|]. simpl.
    apply solve_choose_takes in Htakes.
    unfold bind at 1. rewrite Htakes. unfold bind at 1, env_do. rewrite Hdo.
    destruct (Qlt_bool (energy + reward) (-1000)) eqn:Elt; [done|].
    destruct Hstop as [Hlt| ->]; [|done].
    apply Qlt_bool_spec in Hlt. congruence.
  - destruct IH as [fuel0 IH]. exists (S fuel0). intros [|fuel] Hfuel; [lia|]. simpl.
    apply solve_choose_takes in Htakes.
    unfold bind at 1. rewrite Htakes. unfold bind at 1, env_do. rewrite Hdo.
    destruct (Qlt_bool (energy + reward) (-1000)) eqn:Elt.
    + apply Qlt_bool_spec in Elt. done.
    + apply IH. lia.
Qed.

(** C7. [solve] returns a trace and a total exactly when the replay
    described in the specification produces them: in every state it takes
    the policy's action, or [random.choice] of the legal actions when the
    state has no policy entry; it appends the action to the trace and adds
    the reward to the total; it stops after the first step at which the
    environment signals termination or the total is below -1000, and returns
    the trace and total it has.  A random fall-back action is one the
    environment offers.  On an environment whose every step yields -2000 and
    never terminates, [solve] returns after one step, within the bound of
    500. *)
Theorem C7_solve_replays_policy_until_terminal_or_abort (env : Env)
    (policy : gmap State Action) :
  (forall fuel s res s',
      solve fuel env policy s = (Ok res, s') ->
      solve_run env policy (getStartingState env (world s)) [] 0 s res s') /\
  (forall s res s',
      solve_run env policy (getStartingState env (world s)) [] 0 s res s' ->
      exists fuel0, forall fuel, (fuel0 <= fuel)%nat ->
        solve fuel env policy s = (Ok res, s')) /\
  (forall state s act s1,
      policy !! state = None ->
      solve_choose env policy state s = (Ok act, s1) ->
      act ∈ getActions env (world s) state) /\
  ((forall state act w, exists state' w',
       do env state act w = ((state', (-2000)%Q, false), w')) ->
   (forall w, 0 <= (random_random w).1 < 1)%Q ->
   (forall w state, getActions env w state <> []) ->
   forall fuel s, exists act s',
     solve (S fuel) env policy s = (Ok ([act], (0 + -2000)%Q), s') /\
     (length [act] <= 500)%nat).
Proof.
  split; [|split; [|split]].
  - intros fuel s res s' Hsolve. unfold solve in Hsolve.
    apply bind_Ok_inv in Hsolve as (state & s1 & [= <- <-] & Hloop).
    by apply solve_loop_sound in Hloop.
  - intros s res s' Hrun. apply solve_loop_complete in Hrun as [fuel0 Hrun].
    exists fuel0. intros fuel Hfuel. unfold solve, bind, env_getStartingState, gets.
    by apply Hrun.
  - intros state s act s1 Hp Hchoose. unfold solve_choose in Hchoose. rewrite Hp in Hchoose.
    apply bind_Ok_inv in Hchoose as (actions & s2 & [= <- <-] & Hc).
    by apply random_choice_inv in Hc as [? _].
  - intros Hdo Hrand Hacts fuel s.
    assert (exists act s1, solve_choose env policy (getStartingState env (world s)) s
                           = (Ok act, s1)) as (act & s1 & Hchoose).
    { unfold solve_choose. destruct (policy !! _) as [a|]; [by eexists _, _|].
      destruct (random_choice_Ok (getActions env (world s) (getStartingState env (world s))) s)
        as (a & _ & Ha); [apply Hrand|apply Hacts|].
      exists a. eexists. unfold bind, env_getActions, gets. exact Ha. }
    destruct (Hdo (getStartingState env (world s)) act (world s1)) as (state' & w' & Edo).
    exists act, (set_world w' s1). split; [|simpl; lia].
    unfold solve, bind at 1, env_getStartingState, gets. simpl.
    unfold bind at 1. rewrite Hchoose. unfold bind at 1, env_do. by rewrite Edo.
Qed.
(** * Further properties of the module *)

(** ** The iteration count of an episode *)

Lemma episode_loop_count st (env : Env) kwargs fuel l s itr s' :
  (0 <= l_itr l)%Z ->
  (l_itr l < strategy_maxItr st kwargs \/ l_itr l = 0)%Z ->
  (l_isTerminal l = true -> 1 <= l_itr l)%Z ->
  episode_loop fuel (strategy_body st env kwargs) (strategy_maxItr st kwargs) l s
    = (Ok itr, s') ->
  (1 <= itr <= Z.max 1 (strategy_maxItr st kwargs))%Z.
Proof.
  revert l s. induction fuel as [|fuel IH]; intros l s Hnn Hlt Hterm; simpl.
  - destruct (l_isTerminal l); [|done]. intros [= <- <-]. lia.
  - destruct (l_isTerminal l); [intros [= <- <-]; lia|].
    intros Hloop. apply bind_Ok_inv in Hloop as (l' & s1 & Hbody & Hloop).
    apply strategy_body_itr in Hbody.
    destruct (strategy_maxItr st kwargs <=? l_itr l')%Z eqn:Eitr.
    + injection Hloop as <- <-. lia.
    + apply Z.leb_gt in Eitr. apply (IH l' s1); [lia|lia|lia|done].
Qed.

(** X1. An episode of any of the three strategies ends within the bound of
    the model: it raises or returns its iteration count, and a returned
    count is at least 1 (the loop body runs at least once, whatever
    [maxItr] is) and at most [max(1, maxItr)]. *)
Theorem X1_episode_runs_between_one_and_maxItr_passes st (env : Env) kwargs s :
  (run_strategy st env kwargs s).1 <> OutOfFuel /\
  forall itr s',
    run_strategy st env kwargs s = (Ok itr, s') ->
    (1 <= itr <= Z.max 1 (strategy_maxItr st kwargs))%Z.
Proof.
  split; [apply run_strategy_finishes|].
  intros itr s'. rewrite run_strategy_unfold. intros Hrun.
  apply bind_Ok_inv in Hrun as (l0 & s0 & Hinit & Hloop).
  apply strategy_init_reward in Hinit as (_ & Hitr & Hterm & _).
  apply episode_loop_count in Hloop; [done|lia|lia|congruence].
Qed.
(** ** Invariants of the transition model *)

#[local] Instance stays_inhabited_preorder : PreOrder inhabited.
Proof.
  split.
  - intros s Hne. exact Hne.
  - intros s1 s2 s3 H12 H23 Hne. apply H23, H12, Hne.
Qed.

Lemma stays_inhabited_same (s s' : Store) : transs s' = transs s -> inhabited s s'.
Proof. intros E Hne. by rewrite E. Qed.

Lemma inhabited_count_transition (state : State) (a : Action) (newState : State) :
  keeps inhabited (count_transition state a newState).
Proof.
  apply keeps_modify. intros s Hne. simpl.
  apply map_Forall_insert_2; [|done]. apply insert_non_empty.
Qed.

(** A relation kept by the world and by the three table updates is kept by
    whole episodes. *)
Lemma keeps_run_strategy_gen (R : relation Store) `{!PreOrder R} st (env : Env) kwargs :
  (forall s w, R s (set_world w s)) ->
  (forall newState, keeps R (count_visit newState)) ->
  (forall state a newState, keeps R (count_transition state a newState)) ->
  (forall state v, keeps R (store_utility state v)) ->
  keeps R (run_strategy st env kwargs).
Proof.
  intros Hworld Hvisit Htrans Hutil.
  rewrite run_strategy_unfold. apply keeps_bind; [done| |].
  - destruct st; simpl;
      unfold adp_random_exploration_init, adp_random_exploration_state_init,
        adp_optimistic_rewards_init, env_getStartingState, env_getActions;
      repeat keeps_step.
  - intros l0. generalize (iteration_bound (strategy_maxItr st kwargs)). intros fuel.
    revert l0. induction fuel as [|fuel IH]; intros l; simpl.
    + destruct (l_isTerminal l); eauto with keeps.
    + destruct (l_isTerminal l); [eauto with keeps|].
      apply keeps_bind; [done| |intros l'; destruct (_ <=? _)%Z; eauto with keeps].
      destruct st; simpl;
        unfold adp_random_exploration_body, adp_random_exploration_choose,
          adp_random_exploration_state_body, adp_random_exploration_state_choose,
          adp_optimistic_rewards_body, adp_optimistic_rewards_choose, learning_step,
          env_getActions;
        repeat keeps_step.
Qed.

Lemma inhabited_run_strategy st (env : Env) kwargs :
  keeps inhabited (run_strategy st env kwargs).
Proof.
  apply keeps_run_strategy_gen; [apply _| | | |].
  - intros s w. by apply stays_inhabited_same.
  - intros newState. apply keeps_modify. intros s. by apply stays_inhabited_same.
  - apply inhabited_count_transition.
  - intros state v. apply keeps_modify. intros s. by apply stays_inhabited_same.
Qed.

Lemma learn_trials_well_formed st (self : Agent State Action) (env : Env) kwargs trials w :
  let s := (learn_trials (run_strategy st) env kwargs trials 0
                         (store_of (clearExperience self) w)).2 in
  positive_counts (transs s) /\ inhabited_actions (transs s).
Proof.
  intros s. split.
  - apply (keeps_learn_trials_gen positive (run_strategy st) env kwargs trials 0
             (positive_run_strategy st env kwargs) (store_of (clearExperience self) w)).
    apply map_Forall_empty.
  - apply (keeps_learn_trials_gen inhabited (run_strategy st) env kwargs trials 0
             (inhabited_run_strategy st env kwargs) (store_of (clearExperience self) w)).
    apply map_Forall_empty.
Qed.

(** X2. The strategies keep the transition model well formed, whatever the
    outcome of the episode (also when it raises half-way): if every recorded
    count is at least 1 before an episode, so it is afterwards, and if every
    recorded state has at least one recorded action before, so it has
    afterwards.  Both hold of the transition model an agent holds after
    [learn]. *)
Theorem X2_transition_model_stays_well_formed st (env : Env) kwargs :
  (forall s,
      positive_counts (transs s) ->
      positive_counts (transs (run_strategy st env kwargs s).2)) /\
  (forall s,
      inhabited_actions (transs s) ->
      inhabited_actions (transs (run_strategy st env kwargs s).2)) /\
  (forall (self : Agent State Action) numOfTrials w,
      let learned := (learn self env (run_strategy st) numOfTrials kwargs w).1.2 in
      positive_counts (transTable learned) /\ inhabited_actions (transTable learned)).
Proof.
  split; [|split].
  - intros s. apply positive_run_strategy.
  - intros s. apply inhabited_run_strategy.
  - intros self numOfTrials w learned.
    pose proof (learn_trials_well_formed st self env kwargs (Z.to_nat numOfTrials) w) as Hwf.
    unfold learned, learn. simpl in Hwf.
    by destruct (learn_trials _ _ _ _ _ _) as [o s].
Qed.

(** ** [getPolicy] *)

Lemma for_append_tags {A B} (f : A -> outcome B) (tag : B -> A) (xs : list A)
    (acc ys : list B) :
  (forall x y, f x = Ok y -> tag y = x) ->
  for_append f xs acc = Ok ys -> tag <$> ys = (tag <$> acc) ++ xs.
Proof.
  intros Hf. revert acc. induction xs as [|x xs IH]; intros acc; simpl.
  - intros [= <-]. by rewrite app_nil_r.
  - destruct (f x) as [y|e|] eqn:Ey; simpl; [|done|done].
    intros Hrest. apply IH in Hrest. rewrite Hrest, fmap_app. simpl.
    rewrite (Hf x y Ey). by rewrite <- app_assoc.
Qed.

(** The estimates come one per candidate action, in order. *)
Lemma _getEstimates_actions transs utils (state : State) currActions ests :
  _getEstimates transs utils state currActions = Ok ests ->
  ests.*2 = candidates transs state currActions.
Proof.
  intros Hests. apply (for_append_tags _ snd) in Hests; [done|].
  intros ac y. unfold estimate_action.
  destruct (probs_of _ _); simpl; [|done|done]. by intros [= <-].
Qed.

Lemma py_max_elem (l : list (Q * Action)) (best : Q * Action) :
  py_max l = Ok best -> best ∈ l.
Proof.
  destruct l as [|x rest]; [done|]. simpl. intros [= <-].
  revert x. induction rest as [|y rest IH]; intros x; simpl; [left|].
  specialize (IH (if tuple_gt y x then y else x)).
  apply elem_of_cons in IH as [->|IH]; [|by do 2 right].
  destruct (tuple_gt y x); [right; left|left].
Qed.

Lemma candidates_of_model transs (state : State) (ac : Action) :
  ac ∈ candidates transs state None <->
  is_Some (default ∅ (transs !! state) !! ac).
Proof.
  unfold candidates. rewrite list_elem_of_fmap. split.
  - intros ([a succ] & -> & Hin). apply elem_of_map_to_list in Hin. by exists succ.
  - intros [succ Hsucc]. exists (ac, succ). split; [done|]. by apply elem_of_map_to_list.
Qed.

(** What the loop of [getPolicy] leaves in the policy. *)
Lemma getPolicy_loop_inv (self : Agent State Action) states acc policy :
  getPolicy_loop self states acc = Ok policy ->
  forall state : State,
    (state ∈ states ->
     exists ests best,
       _getEstimates (transTable self) (uTable self) state None = Ok ests /\
       py_max ests = Ok best /\ policy !! state = Some best.2) /\
    (state ∉ states -> policy !! state = acc !! state).
Proof.
  revert acc. induction states as [|st rest IH]; intros acc; simpl.
  - intros [= <-] state. split; [by intros ?%elem_of_nil|done].
  - destruct (_getEstimates _ _ st None) as [ests|e|] eqn:Eests; simpl; [|done|done].
    destruct (py_max ests) as [best|e|] eqn:Ebest; simpl; [|done|done].
    intros Hloop state. destruct (IH _ Hloop state) as [Hin Hout].
    destruct (decide (state ∈ rest)) as [Hrest|Hrest].
    + split; [intros _; by apply Hin|]. intros Hnot. exfalso. apply Hnot. by right.
    + split.
      * intros [->|?]%elem_of_cons; [|done].
        exists ests, best. repeat split; [done..|].
        rewrite (Hout Hrest). apply lookup_insert_eq.
      * intros Hnot. rewrite (Hout Hrest). apply lookup_insert_ne.
        intros ->. apply Hnot. by left.
Qed.

Lemma elem_of_keys {V} (m : gmap State V) (state : State) :
  state ∈ (map_to_list m).*1 <-> is_Some (m !! state).
Proof.
  rewrite list_elem_of_fmap. split.
  - intros ([k v] & -> & Hin). apply elem_of_map_to_list in Hin. by exists v.
  - intros [v Hv]. exists (state, v). split; [done|]. by apply elem_of_map_to_list.
Qed.

Lemma getPolicy_domain (self : Agent State Action) policy (state : State) :
  getPolicy self = Ok policy ->
  policy !! state = None <-> transTable self !! state = None.
Proof.
  unfold getPolicy. intros Hloop.
  destruct (getPolicy_loop_inv _ _ _ _ Hloop state) as [Hin Hout].
  destruct (transTable self !! state) as [by_action|] eqn:Es.
  - destruct Hin as (ests & best & _ & _ & Hpol); [by apply elem_of_keys|].
    by rewrite Hpol.
  - rewrite Hout, lookup_empty; [done|].
    rewrite elem_of_keys, Es. by intros [? ?].
Qed.

(** X3. A policy returned by [getPolicy] has an entry for exactly the
    states of the transition model: a state that was never left has no
    entry.  The entry of a state is the action of the maximal pair among the
    estimates of the actions recorded for that state, so the policy only
    proposes actions that were taken in that state before. *)
Theorem X3_policy_covers_exactly_the_recorded_states (self : Agent State Action) policy :
  getPolicy self = Ok policy ->
  forall state : State,
    (policy !! state = None <-> transTable self !! state = None) /\
    (forall by_action,
        transTable self !! state = Some by_action ->
        exists ests best,
          _getEstimates (transTable self) (uTable self) state None = Ok ests /\
          py_max ests = Ok best /\
          policy !! state = Some best.2 /\
          is_Some (by_action !! best.2)).
Proof.
  intros Hget state. split; [by apply getPolicy_domain|].
  intros by_action Es. unfold getPolicy in Hget.
  destruct (getPolicy_loop_inv _ _ _ _ Hget state) as [Hin _].
  destruct Hin as (ests & best & Hests & Hmax & Hpol).
  { apply elem_of_keys. by exists by_action. }
  exists ests, best. repeat split; [done..|].
  apply py_max_elem in Hmax. apply _getEstimates_actions in Hests.
  assert (Hc : best.2 ∈ candidates (transTable self) state None).
  { rewrite <- Hests. apply list_elem_of_fmap. by exists best. }
  apply candidates_of_model in Hc. by rewrite Es in Hc.
Qed.

Lemma getPolicy_loop_Ok (self : Agent State Action) states acc :
  positive_counts (transTable self) ->
  Forall (fun state => candidates (transTable self) state None <> []) states ->
  exists policy, getPolicy_loop self states acc = Ok policy.
Proof.
  intros Hwf Hall. revert acc.
  induction Hall as [|st rest Hst _ IH]; intros acc; cbn [getPolicy_loop]; [by eexists|].
  rewrite _getEstimates_Ok by done. cbn [obind].
  destruct (candidates (transTable self) st None) as [|ac acs]; [done|].
  cbn [map py_max obind]. apply IH.
Qed.

Lemma getPolicy_loop_Raise (self : Agent State Action) states acc :
  positive_counts (transTable self) ->
  Exists (fun state => candidates (transTable self) state None = []) states ->
  getPolicy_loop self states acc = Raise ValueError.
Proof.
  intros Hwf Hex. revert acc.
  induction states as [|st rest IH]; intros acc; [by apply Exists_nil in Hex|].
  cbn [getPolicy_loop]. rewrite _getEstimates_Ok by done. cbn [obind].
  destruct (candidates (transTable self) st None) as [|ac acs] eqn:Ec; [done|].
  cbn [map py_max obind].
  apply IH. apply Exists_cons in Hex as [Hst|Hrest]; [congruence|done].
Qed.

Lemma candidates_nil transs (state : State) by_action :
  transs !! state = Some by_action ->
  candidates transs state None = [] <-> by_action = ∅.
Proof.
  intros Es. unfold candidates. rewrite Es. simpl. split.
  - intros Hnil. apply fmap_nil_inv in Hnil. by apply map_to_list_empty_iff.
  - intros ->. by rewrite map_to_list_empty.
Qed.

Lemma getPolicy_Ok (self : Agent State Action) :
  positive_counts (transTable self) ->
  inhabited_actions (transTable self) ->
  exists policy, getPolicy self = Ok policy.
Proof.
  intros Hwf Hne. apply getPolicy_loop_Ok; [done|].
  apply Forall_forall. intros state Hin.
  apply elem_of_keys in Hin as [by_action Es].
  rewrite (candidates_nil _ _ _ Es). exact (Hne state by_action Es).
Qed.

(** X4. On a transition model with positive counts [getPolicy] returns a
    policy when every recorded state has at least one recorded action, and
    raises [ValueError] (from [max] over no estimates) as soon as one
    recorded state has an empty action dictionary.  In particular an agent
    without experience gets the empty policy. *)
Theorem X4_getPolicy_needs_an_action_per_state (self : Agent State Action) :
  positive_counts (transTable self) ->
  (inhabited_actions (transTable self) -> exists policy, getPolicy self = Ok policy) /\
  (~ inhabited_actions (transTable self) -> getPolicy self = Raise ValueError) /\
  (transTable self = ∅ -> getPolicy self = Ok ∅).
Proof.
  intros Hwf. split; [|split].
  - intros Hne. by apply getPolicy_Ok.
  - intros Hno. apply getPolicy_loop_Raise; [done|].
    apply map_not_Forall in Hno as (state & by_action & Es & Hempty); [|apply _].
    apply Exists_exists. exists state. split.
    + apply elem_of_keys. by exists by_action.
    + rewrite (candidates_nil _ _ _ Es). by apply dec_stable.
  - intros Hempty. unfold getPolicy. by rewrite Hempty, map_to_list_empty.
Qed.

Lemma finishes_learn_trials st (env : Env) kwargs trials itrs :
  finishes (learn_trials (run_strategy st) env kwargs trials itrs).
Proof.
  revert itrs. induction trials as [|n IH]; intros itrs; simpl; [apply finishes_ret|].
  apply finishes_bind; [apply run_strategy_finishes|]. intros k. apply IH.
Qed.

(** X5. [learn] fails only where one of its episodes fails: when all trials
    return, [learn] returns a policy, with an entry for exactly the states
    of the transition model it built; when a trial raises, [learn] raises the
    same exception.  The final [getPolicy] never raises on the tables the
    strategies build. *)
Theorem X5_learn_returns_a_policy_when_its_trials_return st (self : Agent State Action)
    (env : Env) numOfTrials kwargs w :
  let trials := learn_trials (run_strategy st) env kwargs (Z.to_nat numOfTrials) 0
                             (store_of (clearExperience self) w) in
  let result := learn self env (run_strategy st) numOfTrials kwargs w in
  match trials.1 with
  | Ok _ =>
      exists policy, result.1.1 = Ok policy /\
        forall state : State,
          policy !! state = None <-> transTable result.1.2 !! state = None
  | Raise e => result.1.1 = Raise e
  | OutOfFuel => False
  end.
Proof.
  intros trials result.
  pose proof (learn_trials_well_formed st self env kwargs (Z.to_nat numOfTrials) w)
    as [Hpos Hne].
  pose proof (finishes_learn_trials st env kwargs (Z.to_nat numOfTrials) 0
                (store_of (clearExperience self) w)) as Hfin.
  unfold result, learn. fold trials in Hpos, Hne, Hfin |- *.
  destruct trials as [[itrs|e|] s]; simpl in *; [|done|done].
  destruct (getPolicy_Ok (agent_of (clearExperience self) s) Hpos Hne) as [policy Hpolicy].
  exists policy. split; [done|]. intros state.
  exact (getPolicy_domain (agent_of (clearExperience self) s) policy state Hpolicy).
Qed.
(** ** The safety valve of [solve] *)

Lemma finishes_solve_choose (env : Env) policy state : finishes (solve_choose env policy state).
Proof.
  unfold solve_choose. destruct (policy !! state); [apply finishes_ret|].
  apply finishes_bind; [apply finishes_gets|]. intros actions. apply finishes_random_choice.
Qed.

Lemma solve_loop_cost (env : Env) policy fuel state actions energy s o s' :
  (forall state act w, (snd (fst (fst (do env state act w))) <= - (1))%Q) ->
  (- (1000) <= energy)%Q ->
  (energy + 1000 < inject_Z (Z.of_nat fuel))%Q ->
  solve_loop fuel env policy state actions energy s = (o, s') ->
  o <> OutOfFuel /\
  forall trace total,
    o = Ok (trace, total) ->
    (inject_Z (Z.of_nat (length trace))
     <= inject_Z (Z.of_nat (length actions)) + energy + 1001)%Q.
Proof.
  intros Hcost. revert state actions energy s.
  induction fuel as [|fuel IH]; intros state actions energy s Hlo Hfuel Hloop.
  { exfalso. change (inject_Z (Z.of_nat 0)) with 0%Q in Hfuel. lra. }
  cbn [solve_loop] in Hloop. unfold bind at 1 in Hloop.
  pose proof (finishes_solve_choose env policy state s) as Hchoose.
  destruct (solve_choose env policy state s) as [[act|e|] s1]; simpl in Hchoose;
    [|injection Hloop as <- <-; split; [done|intros ? ? [=]]|done].
  unfold bind at 1, env_do in Hloop. specialize (Hcost state act (world s1)).
  destruct (do env state act (world s1)) as [[[state' reward] term] w1]. simpl in Hcost.
  assert (Hlen : (inject_Z (Z.of_nat (length (actions ++ [act])))
                  == inject_Z (Z.of_nat (length actions)) + 1)%Q).
  { rewrite length_app, Nat2Z.inj_add, inject_Z_plus. reflexivity. }
  destruct (Qlt_bool (energy + reward) (-1000)) eqn:Elt.
  { injection Hloop as <- <-. split; [done|]. intros trace total [= <- <-]. lra. }
  destruct term.
  { injection Hloop as <- <-. split; [done|]. intros trace total [= <- <-]. lra. }
  assert (Hge : (- (1000) <= energy + reward)%Q).
  { destruct (Qlt_le_dec (energy + reward) (-1000)) as [Hlt|Hle]; [|done].
    apply Qlt_bool_spec in Hlt. congruence. }
  assert (Hfuel' : (energy + reward + 1000 < inject_Z (Z.of_nat fuel))%Q).
  { rewrite Nat2Z.inj_succ, <- Z.add_1_r, inject_Z_plus in Hfuel.
    change (inject_Z 1) with 1%Q in Hfuel. lra. }
  destruct (IH state' (actions ++ [act]) (energy + reward)%Q (set_world w1 s1) Hge Hfuel' Hloop)
    as [Hfin Hbound].
  split; [done|]. intros trace total Hres.
  specialize (Hbound trace total Hres). lra.
Qed.

(** X6. The cut-off of [solve] bounds the replay whenever every step costs
    at least 1: with 1001 passes or more at its disposal the loop always
    comes to an end (it returns or raises), and a returned trace has at most
    1001 actions. *)
Theorem X6_solve_ends_within_1001_steps_when_steps_cost (env : Env)
    (policy : gmap State Action) (fuel : nat) (s : Store) :
  (forall state act w, (snd (fst (fst (do env state act w))) <= - (1))%Q) ->
  (1001 <= fuel)%nat ->
  fst (solve fuel env policy s) <> OutOfFuel /\
  forall trace total s',
    solve fuel env policy s = (Ok (trace, total), s') ->
    (length trace <= 1001)%nat.
Proof.
  intros Hcost Hfuel.
  change (solve fuel env policy s)
    with (solve_loop fuel env policy (getStartingState env (world s)) [] 0 s).
  destruct (solve_loop fuel env policy (getStartingState env (world s)) [] 0 s)
    as [o s1] eqn:Eloop.
  apply solve_loop_cost in Eloop as [Hfin Hbound]; [|done|lra|].
  - split; [done|]. intros trace total s' [= Ho _].
    specialize (Hbound trace total Ho). simpl in Hbound.
    apply Nat2Z.inj_le. rewrite Zle_Qle. change (inject_Z (Z.of_nat 1001)) with 1001%Q.
    change (inject_Z (Z.of_nat 0)) with 0%Q in Hbound. lra.
  - apply Qlt_le_trans with (inject_Z 1001); [reflexivity|].
    rewrite <- Zle_Qle. lia.
Qed.

(** X7. A policy gap in a state without actions stops [solve] with
    [IndexError]: when the starting state has no policy entry and the
    environment offers no action there, [random.choice] is applied to an
    empty list, whatever the draw. *)
Theorem X7_solve_raises_IndexError_in_a_dead_end (env : Env)
    (policy : gmap State Action) (fuel : nat) (s : Store) :
  policy !! getStartingState env (world s) = None ->
  getActions env (world s) (getStartingState env (world s)) = [] ->
  fst (solve (S fuel) env policy s) = Raise IndexError.
Proof.
  intros Hgap Hnone. unfold solve, bind at 1, env_getStartingState, gets.
  cbn [solve_loop]. unfold bind at 1, solve_choose. rewrite Hgap.
  unfold bind at 1, env_getActions, gets. rewrite Hnone.
  unfold random_choice, bind, random, lift.
  by destruct (random_random (world s)).
Qed.
(** ** Probabilities and estimates *)

Lemma py_sum_Q_shift (a : Q) (l : list Q) :
  (foldl Qplus a l == a + foldl Qplus 0 l)%Q.
Proof.
  revert a. induction l as [|x l IH]; intros a; simpl; [lra|].
  rewrite (IH (a + x)%Q), (IH (0 + x)%Q). lra.
Qed.

Lemma py_sum_Z_shift (a : Z) (l : list Z) :
  foldl Z.add a l = (a + foldl Z.add 0 l)%Z.
Proof.
  revert a. induction l as [|x l IH]; intros a; simpl; [lia|].
  rewrite (IH (a + x)%Z), (IH (0 + x)%Z). lia.
Qed.

Lemma py_sum_Z_elem (x : Z) (l : list Z) :
  Forall (fun c => (1 <= c)%Z) l -> x ∈ l -> (x <= py_sum_Z l)%Z.
Proof.
  unfold py_sum_Z. intros Hall. induction Hall as [|c l Hc Hall IH]; [by intros ?%elem_of_nil|].
  simpl. rewrite py_sum_Z_shift. pose proof (py_sum_Z_from 0 l Hall) as Hge.
  intros [->|Hin]%elem_of_cons; [lia|]. specialize (IH Hin). lia.
Qed.

Lemma quotients_sum (N : Q) (l : list Z) :
  ~ (N == 0)%Q ->
  (foldl Qplus 0 (map (fun c => inject_Z c / N) l) == inject_Z (py_sum_Z l) / N)%Q.
Proof.
  intros HN. unfold py_sum_Z. induction l as [|c l IH]; cbn [foldl map].
  - change (inject_Z 0) with 0%Q. unfold Qdiv. by rewrite Qmult_0_l.
  - rewrite py_sum_Q_shift, IH, (py_sum_Z_shift (0 + c)), !inject_Z_plus.
    change (inject_Z 0) with 0%Q.
    generalize (inject_Z (foldl Z.add 0%Z l)) (inject_Z c). intros S C. field. done.
Qed.

Lemma count_of_positive (freq : gmap State Z) :
  map_Forall (fun _ c => (1 <= c)%Z) freq -> freq <> ∅ -> (1 <= count_of freq)%Z.
Proof.
  intros Hpos Hne.
  destruct (decide (count_of freq = 0%Z)) as [Hz|Hz].
  - by apply count_of_zero_empty in Hz.
  - assert (Hall : Forall (fun c => (1 <= c)%Z) (map_to_list freq).*2).
    { apply Forall_fmap, Forall_forall. intros [k c] Hin. simpl.
      apply (Hpos k), elem_of_map_to_list. exact Hin. }
    pose proof (py_sum_Z_from 0 _ Hall) as Hsum. unfold count_of, py_sum_Z in *. lia.
Qed.

(** X8. The probabilities [_getEstimates] derives for an action with
    recorded successors form a distribution: for successor counts that are
    at least 1, the division by the total count never raises, every
    successor gets its count divided by the total, each probability lies in
    (0, 1], and the probabilities sum to 1. *)
Theorem X8_probabilities_sum_to_one (freq : gmap State Z) :
  map_Forall (fun _ c => (1 <= c)%Z) freq ->
  freq <> ∅ ->
  exists probs,
    probs_of freq (count_of freq) = Ok probs /\
    (py_sum_Q probs.*2 == 1)%Q /\
    forall (successor : State) (p : Q),
      (successor, p) ∈ probs ->
      (0 < p /\ p <= 1)%Q /\
      exists c, freq !! successor = Some c /\
                p = (inject_Z c / inject_Z (count_of freq))%Q.
Proof.
  intros Hpos Hne. pose proof (count_of_positive freq Hpos Hne) as Hn.
  assert (HN : (0 < inject_Z (count_of freq))%Q).
  { change 0%Q with (inject_Z 0). rewrite <- Zlt_Qlt. lia. }
  eexists. split; [by apply probs_of_Ok|]. split.
  - unfold py_sum_Q.
    assert (Heq : (map (fun kv : State * Z =>
                          (kv.1, inject_Z kv.2 / inject_Z (count_of freq))%Q)
                       (map_to_list freq)).*2
                  = map (fun c => inject_Z c / inject_Z (count_of freq))%Q
                        (map_to_list freq).*2).
    { generalize (inject_Z (count_of freq)). intros N.
      induction (map_to_list freq) as [|kv l IH]; [done|]. cbn. by f_equal. }
    rewrite Heq, quotients_sum by lra. fold (count_of freq).
    revert HN. generalize (inject_Z (count_of freq)). intros N HN. field. lra.
  - intros successor p Hin. apply list_elem_of_fmap in Hin as ([k c] & [= -> ->] & Hin).
    simpl. assert (Hc : (1 <= c <= count_of freq)%Z).
    { split; [exact (Hpos k c (proj1 (elem_of_map_to_list _ _ _) Hin))|].
      apply py_sum_Z_elem.
      - apply Forall_fmap, Forall_forall. intros [k' c'] Hin'. simpl.
        apply (Hpos k'), elem_of_map_to_list. exact Hin'.
      - apply list_elem_of_fmap. by exists (k, c). }
    assert (HcQ : (1 <= inject_Z c /\ inject_Z c <= inject_Z (count_of freq))%Q).
    { change 1%Q with (inject_Z 1). rewrite <- !Zle_Qle. lia. }
    split.
    + split; [apply Qlt_shift_div_l; lra|apply Qle_shift_div_r; lra].
    + exists c. split; [by apply elem_of_map_to_list|done].
Qed.


Lemma count_of_nonneg (freq : gmap State Z) :
  map_Forall (fun _ c => (1 <= c)%Z) freq -> (0 <= count_of freq)%Z.
Proof.
  intros Hpos. destruct (decide (freq = ∅)) as [->|Hne].
  - unfold count_of. by rewrite map_to_list_empty.
  - pose proof (count_of_positive freq Hpos Hne). lia.
Qed.

(** X10. A threshold [N_e] of 0 or less switches the optimism off: on a
    transition model with positive counts no observation count is below it,
    and [_getEstimatesOptimistic] returns what [_getEstimates] returns,
    whatever [R_plus] is. *)
Theorem X10_no_optimism_without_threshold transs utils (state : State) R_plus N_e
    currActions :
  positive_counts transs ->
  (N_e <= 0)%Z ->
  _getEstimatesOptimistic transs utils state R_plus N_e currActions
  = _getEstimates transs utils state currActions.
Proof.
  intros Hwf HN. rewrite _getEstimatesOptimistic_Ok, _getEstimates_Ok by done.
  f_equal. apply map_ext. intros ac. unfold optimistic_value.
  pose proof (count_of_nonneg _ (positive_counts_freq_of transs state ac Hwf)) as Hn.
  by rewrite (proj2 (Z.ltb_ge _ _)) by lia.
Qed.
(** ** One observation per pass *)

Lemma py_sum_Z_perm (l l' : list Z) : l ≡ₚ l' -> py_sum_Z l = py_sum_Z l'.
Proof.
  unfold py_sum_Z. induction 1 as [|x l l' _ IH|x y l|l l' l'' _ IH1 _ IH2]; simpl.
  - done.
  - rewrite (py_sum_Z_shift (0 + x) l), (py_sum_Z_shift (0 + x) l'). lia.
  - rewrite (py_sum_Z_shift (0 + y + x) l), (py_sum_Z_shift (0 + x + y) l). lia.
  - congruence.
Qed.

(** [freq.setdefault(key, 0); freq[key] += 1] adds one to the total. *)
Lemma count_of_increment (freq : gmap State Z) (key : State) :
  count_of (<[key := (default 0 (freq !! key) + 1)%Z]> freq) = (count_of freq + 1)%Z.
Proof.
  unfold count_of. destruct (freq !! key) as [c|] eqn:Ek; simpl.
  - rewrite <- (insert_delete_eq freq).
    rewrite (py_sum_Z_perm _ ((c + 1)%Z :: (map_to_list (delete key freq)).*2)).
    + rewrite (py_sum_Z_perm (map_to_list freq).*2 (c :: (map_to_list (delete key freq)).*2)).
      * unfold py_sum_Z. simpl.
        rewrite (py_sum_Z_shift (0 + (c + 1))), (py_sum_Z_shift (0 + c)). lia.
      * change (c :: (map_to_list (delete key freq)).*2)
          with (((key, c) :: map_to_list (delete key freq)).*2).
        apply fmap_Permutation. symmetry. by apply map_to_list_delete.
    + change ((c + 1)%Z :: (map_to_list (delete key freq)).*2)
        with (((key, (c + 1)%Z) :: map_to_list (delete key freq)).*2).
      apply fmap_Permutation, map_to_list_insert, lookup_delete_eq.
  - rewrite (py_sum_Z_perm _ (1%Z :: (map_to_list freq).*2)).
    + unfold py_sum_Z. simpl. rewrite (py_sum_Z_shift (0 + 1)). lia.
    + change (1%Z :: (map_to_list freq).*2) with (((key, 1%Z) :: map_to_list freq).*2).
      by apply fmap_Permutation, map_to_list_insert.
Qed.

Lemma learning_step_transs (env : Env) best l act s l' s' :
  (forall state actions s, (best state actions s).2 = s) ->
  learning_step env best l act s = (Ok l', s') ->
  transs s'
  = <[l_state l :=
        <[act := <[l_state l' :=
                     (default 0 (freq_of (transs s) (l_state l) act !! l_state l') + 1)%Z]>
                   (freq_of (transs s) (l_state l) act)]>
          (default ∅ (transs s !! l_state l))]> (transs s).
Proof.
  unfold learning_step. intros Hbest Hstep.
  apply bind_Ok_inv in Hstep as (res & s1 & Hdo & Hstep).
  unfold env_do in Hdo.
  destruct (do env (l_state l) act (world s)) as [[[newState new_reward] term] w1] eqn:Edo.
  injection Hdo as <- <-.
  apply bind_Ok_inv in Hstep as ([] & s2 & [= <-] & Hstep).
  apply bind_Ok_inv in Hstep as ([] & s3 & [= <-] & Hstep).
  apply bind_Ok_inv in Hstep as (actions & s4 & [= <- <-] & Hstep).
  apply bind_Ok_inv in Hstep as (est & s5 & Hest & Hstep).
  match type of Hest with best ?a ?b ?c = _ => pose proof (Hbest a b c) as Hs5 end.
  rewrite Hest in Hs5. simpl in Hs5. subst s5.
  apply bind_Ok_inv in Hstep as (n & s6 & [= <- <-] & Hstep).
  apply bind_Ok_inv in Hstep as (a & s7 & Ha & Hstep).
  injection Ha as Ha <-.
  apply bind_Ok_inv in Hstep as ([] & s8 & [= <-] & Hstep).
  apply bind_Ok_inv in Hstep as (new_actions & s9 & [= <- <-] & Hstep).
  apply bind_Ok_inv in Hstep as (est' & s10 & Hest' & Hstep).
  match type of Hest' with best ?a ?b ?c = _ => pose proof (Hbest a b c) as Hs10 end.
  rewrite Hest' in Hs10. simpl in Hs10. subst s10.
  injection Hstep as <- <-. reflexivity.
Qed.
(** X11. A completed pass of the loop body of any strategy adds exactly one
    observation to the transition model: for the state left and the action
    executed the count of the state entered grows by one (from 0 when the
    successor is new), so the total observation count of that pair grows by
    one, and the successor counts of every other state-action pair are
    unchanged. *)
Theorem X11_a_pass_records_one_observation st (env : Env) kwargs l s l' s' :
  strategy_body st env kwargs l s = (Ok l', s') ->
  exists bestAction : Action,
    let before := freq_of (transs s) (l_state l) bestAction in
    let after := freq_of (transs s') (l_state l) bestAction in
    after = <[l_state l' := (default 0 (before !! l_state l') + 1)%Z]> before /\
    count_of after = (count_of before + 1)%Z /\
    forall (state : State) (ac : Action),
      (state, ac) <> (l_state l, bestAction) ->
      freq_of (transs s') state ac = freq_of (transs s) state ac.
Proof.
  intros Hbody.
  apply strategy_body_inv in Hbody
    as (act & s1 & l1 & (Ht & _ & _) & Hstep & Hst & _).
  apply learning_step_transs in Hstep; [|done].
  rewrite Ht, <- Hst in Hstep. exists act. intros before after.
  assert (Hafter : after = <[l_state l' := (default 0 (before !! l_state l') + 1)%Z]> before).
  { unfold after, freq_of at 1. rewrite Hstep, lookup_insert_eq. simpl.
    by rewrite lookup_insert_eq. }
  split; [done|]. split; [rewrite Hafter; apply count_of_increment|].
  intros state ac Hne. unfold freq_of at 1. rewrite Hstep.
  destruct (decide (l_state l = state)) as [<-|Hs].
  - rewrite lookup_insert_eq. simpl. rewrite lookup_insert_ne; [done|].
    intros <-. by apply Hne.
  - by rewrite lookup_insert_ne.
Qed.

(** ** A starting state without actions *)

Lemma random_choice_nil {A} (s : Store) :
  (random_choice ([] : list A) s).1 = Raise IndexError.
Proof. unfold random_choice, bind, random, lift. by destruct (random_random (world s)). Qed.

Lemma bind_Raise {A B} (m : M A) (k : A -> M B) (s : Store) (e : exn) :
  (m s).1 = Raise e -> (bind m k s).1 = Raise e.
Proof. unfold bind. destruct (m s) as [[a|e'|] s1]; simpl; congruence. Qed.

Lemma choose_without_actions st (env : Env) kwargs l s :
  l_bestAction l = None ->
  l_actions l = [] ->
  (st = RandomExploration ->
   exists lg, math_log (l_t l + 1) = Some lg /\ Qeq_bool lg 0 = false) ->
  (strategy_body st env kwargs l s).1 = Raise IndexError.
Proof.
  intros Hnone Hacts Hlog. destruct st; cbn [strategy_body]; apply bind_Raise.
  - destruct (Hlog eq_refl) as (lg & Elg & Enz).
    unfold adp_random_exploration_choose, bind at 1, random.
    destruct (random_random (world s)) as [r w1].
    unfold bind at 1, lift at 1. rewrite Elg.
    unfold bind at 1, lift at 1, py_div. rewrite Enz, Hnone, Hacts.
    apply random_choice_nil.
  - unfold adp_random_exploration_state_choose, bind at 1, gets.
    unfold bind at 1, random. destruct (random_random (world s)) as [r w1].
    unfold bind at 1, lift at 1.
    rewrite py_div_pos by (pose proof (experience_ge_1 (freqs s)); lra).
    rewrite Hnone, Hacts. apply random_choice_nil.
  - unfold adp_optimistic_rewards_choose. rewrite Hnone, Hacts. apply random_choice_nil.
Qed.

(** X12. When no utility is known yet and the environment offers no action
    in the starting state, the episode raises [IndexError] before the
    environment is asked to act: [random.choice] is applied to the empty
    action list.  (Strategy A first evaluates [1. / log(t+1)], which must
    have a value for the choice to be reached.) *)
Theorem X12_no_action_in_the_starting_state_raises_IndexError st (env : Env) kwargs s :
  utils s = ∅ ->
  getActions env (world s) (getStartingState env (world s)) = [] ->
  (st = RandomExploration ->
   exists lg, math_log (default 1%Q (kw_t kwargs) + 1) = Some lg /\ Qeq_bool lg 0 = false) ->
  (run_strategy st env kwargs s).1 = Raise IndexError.
Proof.
  intros Hutils Hacts Hlog. rewrite run_strategy_unfold.
  assert (Hinit : strategy_init st env kwargs s
                  = (Ok (entry (getStartingState env (world s)) []
                               (match st with RandomExploration => default 1%Q (kw_t kwargs)
                                | _ => 0%Q end) None), s)).
  { destruct st; simpl;
      unfold adp_random_exploration_init, adp_optimistic_rewards_init,
        adp_random_exploration_state_init, bind, env_getStartingState, env_getActions, gets;
      simpl; rewrite ?Hutils, ?Hacts; try rewrite map_size_empty; reflexivity. }
  unfold bind at 1. rewrite Hinit.
  unfold iteration_bound.
  destruct (Z.to_nat (Z.max 1 (strategy_maxItr st kwargs))) as [|fuel] eqn:Efuel; [lia|].
  cbn [episode_loop entry l_isTerminal]. apply bind_Raise.
  apply choose_without_actions; [done|done|].
  intros ->. exact (Hlog eq_refl).
Qed.
(** ** Only offered actions are recorded *)

Lemma _getEstimatesOptimistic_actions transs utils (state : State) R_plus N_e currActions
    ests :
  _getEstimatesOptimistic transs utils state R_plus N_e currActions = Ok ests ->
  ests.*2 = candidates transs state currActions.
Proof.
  intros Hests. apply (for_append_tags _ snd) in Hests; [done|].
  intros ac y. unfold estimate_action_optimistic.
  destruct (probs_of _ _); simpl; [|done|done].
  destruct (_ <? _)%Z; by intros [= <-].
Qed.

Lemma strategy_estimates_actions st kwargs transs utils (state : State) currActions ests :
  strategy_estimates st kwargs transs utils state currActions = Ok ests ->
  ests.*2 = candidates transs state currActions.
Proof.
  destruct st; simpl;
    [apply _getEstimates_actions|apply _getEstimates_actions
    |apply _getEstimatesOptimistic_actions].
Qed.

(** The action of a best estimate is an offered one. *)
Lemma best_action_offered st (env : Env) kwargs transs utils (state : State) w best :
  static_actions env -> offered env transs ->
  obind (strategy_estimates st kwargs transs utils state (Some (getActions env w state)))
        py_max = Ok best ->
  forall w', best.2 ∈ getActions env w' state.
Proof.
  intros Hstatic Hoff Hbest w'.
  destruct (strategy_estimates _ _ _ _ _ _) as [ests| |] eqn:Hests; simpl in Hbest;
    [|done|done].
  apply strategy_estimates_actions in Hests. apply py_max_elem in Hbest.
  assert (best.2 ∈ ests.*2) as Hin by (apply list_elem_of_fmap; eauto).
  rewrite Hests in Hin. unfold candidates in Hin.
  destruct (getActions env w state) as [|a acts] eqn:E.
  - destruct (transs !! state) as [by_action|] eqn:Et; simpl in Hin.
    + apply (Hoff w' state by_action); [done|].
      apply list_elem_of_fmap in Hin as ([k v] & -> & Hin).
      apply elem_of_map_to_list in Hin. by exists v.
    + rewrite map_to_list_empty in Hin. by apply elem_of_nil in Hin.
  - rewrite <- E in Hin. by rewrite (Hstatic w' w).
Qed.

Lemma offered_count_transition (env : Env) (state : State) (a : Action) newState (s : Store) :
  (forall w, a ∈ getActions env w state) -> offered env (transs s) ->
  offered env (transs (count_transition state a newState s).2).
Proof.
  intros Ha Hoff w st by_action ac. simpl.
  destruct (decide (st = state)) as [->|Hne].
  - rewrite lookup_insert_eq. intros [= <-].
    destruct (decide (ac = a)) as [->|Hac]; [intros _; apply Ha|].
    rewrite lookup_insert_ne by done. intros Hsome.
    destruct (transs s !! state) as [ba|] eqn:E; simpl in Hsome.
    + by apply (Hoff w state ba).
    + rewrite lookup_empty in Hsome. by destruct Hsome.
  - rewrite lookup_insert_ne by done. apply Hoff.
Qed.

Lemma learning_step_offered st (env : Env) kwargs l act (s : Store) o s' :
  static_actions env -> offered env (transs s) ->
  (forall w, act ∈ getActions env w (l_state l)) ->
  learning_step env
    (fun state actions s =>
       (obind (strategy_estimates st kwargs (transs s) (utils s) state (Some actions))
              py_max, s))
    l act s = (o, s') ->
  offered env (transs s') /\ forall l', o = Ok l' -> legal_locals env l'.
Proof.
  intros Hstatic Hoff Hact.
  unfold learning_step, bind at 1, env_do.
  destruct (do env (l_state l) act (world s)) as [[[newState new_reward] term] w1].
  pose proof (offered_count_transition env (l_state l) act newState
                (count_visit newState (set_world w1 s)).2 Hact Hoff) as Hoff3.
  revert Hoff3.
  unfold bind, count_visit, count_transition, env_getActions, modify, gets, lift,
    store_utility, ret.
  cbn [fst snd transs utils freqs world set_transs set_utils set_freqs set_world].
  match goal with |- offered env ?T -> _ => generalize T end. intros T3 Hoff3.
  destruct (obind (strategy_estimates st kwargs T3 (utils s) (l_state l) _) py_max)
    as [est|e|]; [|by intros [= <- <-]..].
  destruct (_alpha _) as [a|e|]; [|by intros [= <- <-]..].
  unfold modify.
  cbn [fst snd transs utils freqs world set_transs set_utils set_freqs set_world].
  destruct (obind (strategy_estimates st kwargs T3 _ newState _) py_max)
    as [est'|e|] eqn:Hest'; [|by intros [= <- <-]..].
  intros [= <- <-]. split; [done|]. intros l' [= <-].
  split; cbn [l_state l_actions l_bestAction].
  - intros w. apply Hstatic.
  - intros w b [= <-]. by apply (best_action_offered _ _ _ _ _ _ _ _ Hstatic Hoff3 Hest').
Qed.

(** The action chosen at a loop head is taken from the action list, or is
    the best action found before; the choice leaves the tables alone. *)
Lemma strategy_choice_inv (choose : Locals State Action -> M Action) l (s s1 : Store) act :
  choose = adp_random_exploration_choose \/
  choose = adp_random_exploration_state_choose \/
  choose = adp_optimistic_rewards_choose ->
  choose l s = (Ok act, s1) ->
  act ∈ l_actions l \/ l_bestAction l = Some act.
Proof.
  intros [->|[->| ->]] Hchoose.
  - apply bind_Ok_inv in Hchoose as (r & s2 & _ & Hchoose).
    apply bind_Ok_inv in Hchoose as (lg & s3 & _ & Hchoose).
    apply bind_Ok_inv in Hchoose as (threshold & s4 & _ & Hchoose).
    destruct (l_bestAction l) as [b|];
      [destruct (Qlt_bool r threshold); [|injection Hchoose as <- _; by right]|];
      left; by apply random_choice_inv in Hchoose as [? _].
  - apply bind_Ok_inv in Hchoose as (t & s2 & _ & Hchoose).
    apply bind_Ok_inv in Hchoose as (r & s3 & _ & Hchoose).
    apply bind_Ok_inv in Hchoose as (threshold & s4 & _ & Hchoose).
    destruct (l_bestAction l) as [b|];
      [destruct (Qlt_bool r threshold); [|injection Hchoose as <- _; by right]|];
      left; by apply random_choice_inv in Hchoose as [? _].
  - unfold adp_optimistic_rewards_choose in Hchoose.
    destruct (l_bestAction l) as [b|]; [injection Hchoose as <- _; by right|].
    left. by apply random_choice_inv in Hchoose as [? _].
Qed.

Lemma strategy_body_offered st (env : Env) kwargs l (s : Store) o s' :
  static_actions env -> offered env (transs s) -> legal_locals env l ->
  strategy_body st env kwargs l s = (o, s') ->
  offered env (transs s') /\ forall l', o = Ok l' -> legal_locals env l'.
Proof.
  intros Hstatic Hoff [Hacts Hbest].
  assert (Hlegal : forall (choose : Locals State Action -> M Action) act s1,
             choose = adp_random_exploration_choose \/
             choose = adp_random_exploration_state_choose \/
             choose = adp_optimistic_rewards_choose ->
             choose l s = (Ok act, s1) ->
             forall w, act ∈ getActions env w (l_state l)).
  { intros choose act s1 Hc Hchoose w.
    destruct (strategy_choice_inv choose l s s1 act Hc Hchoose) as [Hin|Hb].
    - by rewrite <- (Hacts w).
    - by apply Hbest. }
  destruct st; cbn [strategy_body].
  - unfold adp_random_exploration_body, bind at 1.
    pose proof (keeps_adp_random_exploration_choose unchanged l same_tables_world s) as Hk.
    destruct (adp_random_exploration_choose l s) as [[act|e|] s1] eqn:Hchoose;
      destruct Hk as (Ht & _ & _); cbn [snd] in Ht;
      [|intros [= <- <-]; split; [by rewrite Ht|done]..].
    rewrite <- Ht in Hoff. unfold bind.
    destruct (learning_step env best_estimate l act s1) as [[l1|e|] s2] eqn:Hstep;
      intros [= <- <-];
      destruct (learning_step_offered RandomExploration env kwargs l act s1 _ _
                  Hstatic Hoff ltac:(eapply Hlegal; [|done]; auto) Hstep) as [Hoff' Hl'];
      (split; [done|]); [|done..].
    intros l' [= <-]. apply (Hl' l1 eq_refl).
  - unfold adp_random_exploration_state_body, bind at 1.
    pose proof (keeps_adp_random_exploration_state_choose unchanged l same_tables_world s)
      as Hk.
    destruct (adp_random_exploration_state_choose l s) as [[act|e|] s1] eqn:Hchoose;
      destruct Hk as (Ht & _ & _); cbn [snd] in Ht;
      [|intros [= <- <-]; split; [by rewrite Ht|done]..].
    rewrite <- Ht in Hoff.
    apply (learning_step_offered RandomExplorationState env kwargs l act s1 _ _
             Hstatic Hoff).
    eapply Hlegal; [|done]; auto.
  - unfold adp_optimistic_rewards_body, bind at 1.
    pose proof (keeps_adp_optimistic_rewards_choose unchanged l same_tables_world s) as Hk.
    destruct (adp_optimistic_rewards_choose l s) as [[act|e|] s1] eqn:Hchoose;
      destruct Hk as (Ht & _ & _); cbn [snd] in Ht;
      [|intros [= <- <-]; split; [by rewrite Ht|done]..].
    rewrite <- Ht in Hoff.
    apply (learning_step_offered OptimisticRewards env kwargs l act s1 _ _ Hstatic Hoff).
    eapply Hlegal; [|done]; auto.
Qed.

Lemma strategy_init_offered st (env : Env) kwargs (s : Store) o s' :
  static_actions env -> offered env (transs s) ->
  strategy_init st env kwargs s = (o, s') ->
  transs s' = transs s /\ forall l, o = Ok l -> legal_locals env l.
Proof.
  intros Hstatic Hoff.
  assert (Hgiven : forall est : Q * Action,
             obind (strategy_estimates st kwargs (transs s) (utils s)
                      (getStartingState env (world s))
                      (Some (getActions env (world s) (getStartingState env (world s)))))
                   py_max = Ok est ->
             forall t, legal_locals env
                         (entry (getStartingState env (world s))
                                (getActions env (world s) (getStartingState env (world s)))
                                t (Some est))).
  { intros est Hest t. split; cbn.
    - intros w. apply Hstatic.
    - intros w b [= <-]. by apply (best_action_offered _ _ _ _ _ _ _ _ Hstatic Hoff Hest). }
  assert (Hnone : forall t, legal_locals env
                              (entry (getStartingState env (world s))
                                 (getActions env (world s) (getStartingState env (world s)))
                                 t None)).
  { intros t. split; cbn; [intros w; apply Hstatic|done]. }
  destruct st; cbn [strategy_init strategy_estimates] in *;
    unfold adp_random_exploration_init, adp_random_exploration_state_init,
      adp_optimistic_rewards_init, bind, env_getStartingState, env_getActions, gets, ret,
      best_estimate, best_estimate_optimistic.
  - destruct (0 <? size (utils s))%nat; [|intros [= <- <-]; split; [done|by intros l [= <-]]].
    destruct (obind _ py_max) as [est|e|] eqn:Hest; intros [= <- <-]; (split; [done|]);
      [|done..].
    intros l [= <-]. by apply Hgiven.
  - intros [= <- <-]. split; [done|by intros l [= <-]].
  - destruct (0 <? size (utils s))%nat; [|intros [= <- <-]; split; [done|by intros l [= <-]]].
    destruct (obind _ py_max) as [est|e|] eqn:Hest; intros [= <- <-]; (split; [done|]);
      [|done..].
    intros l [= <-]. by apply Hgiven.
Qed.

Lemma episode_loop_offered st (env : Env) kwargs fuel l (s : Store) :
  static_actions env -> offered env (transs s) -> legal_locals env l ->
  offered env
    (transs (episode_loop fuel (strategy_body st env kwargs) (strategy_maxItr st kwargs)
               l s).2).
Proof.
  intros Hstatic. revert l s. induction fuel as [|fuel IH]; intros l s Hoff Hl; simpl.
  - by destruct (l_isTerminal l).
  - destruct (l_isTerminal l); [done|]. unfold bind.
    destruct (strategy_body st env kwargs l s) as [o s1] eqn:Hbody.
    destruct (strategy_body_offered _ _ _ _ _ _ _ Hstatic Hoff Hl Hbody) as [Hoff1 Hl1].
    destruct o as [l'|e|]; [|done..].
    destruct (_ <=? _)%Z; [done|]. apply IH; [done|by apply Hl1].
Qed.

Lemma run_strategy_offered st (env : Env) kwargs (s : Store) :
  static_actions env -> offered env (transs s) ->
  offered env (transs (run_strategy st env kwargs s).2).
Proof.
  intros Hstatic Hoff. rewrite run_strategy_unfold. unfold bind.
  destruct (strategy_init st env kwargs s) as [o s0] eqn:Hinit.
  destruct (strategy_init_offered _ _ _ _ _ _ Hstatic Hoff Hinit) as [Ht Hl].
  rewrite <- Ht in Hoff.
  destruct o as [l0|e|]; [|done..].
  apply episode_loop_offered; [done..|by apply Hl].
Qed.

Lemma learn_trials_offered st (env : Env) kwargs trials itrs (s : Store) :
  static_actions env -> offered env (transs s) ->
  offered env (transs (learn_trials (run_strategy st) env kwargs trials itrs s).2).
Proof.
  intros Hstatic. revert itrs s. induction trials as [|n IH]; intros itrs s Hoff; simpl.
  - done.
  - unfold bind. pose proof (run_strategy_offered st env kwargs s Hstatic Hoff) as Hoff1.
    destruct (run_strategy st env kwargs s) as [[k|e|] s1]; [|done..].
    by apply IH.
Qed.

Lemma getPolicy_recorded (self : Agent State Action) policy (state : State) (ac : Action) :
  getPolicy self = Ok policy -> policy !! state = Some ac ->
  exists by_action, transTable self !! state = Some by_action /\ is_Some (by_action !! ac).
Proof.
  intros Hget Hpol.
  destruct (transTable self !! state) as [by_action|] eqn:Es.
  - exists by_action. split; [done|]. unfold getPolicy in Hget.
    destruct (getPolicy_loop_inv _ _ _ _ Hget state) as [Hin _].
    destruct Hin as (ests & best & Hests & Hmax & Hbest).
    { apply elem_of_keys. by exists by_action. }
    rewrite Hpol in Hbest. injection Hbest as ->.
    apply py_max_elem in Hmax. apply _getEstimates_actions in Hests.
    assert (Hc : best.2 ∈ candidates (transTable self) state None).
    { rewrite <- Hests. apply list_elem_of_fmap. by exists best. }
    apply candidates_of_model in Hc. by rewrite Es in Hc.
  - apply (getPolicy_domain self policy state Hget) in Es. by rewrite Es in Hpol.
Qed.

(** X13. In an environment whose action lists do not change, the strategies
    only record actions the environment offers: if every action recorded in
    the transition model is offered in its state before an episode, so it
    is afterwards, whatever the outcome of the episode.  Hence a policy
    returned by [learn] proposes in every state an action the environment
    offers there. *)
Theorem X13_a_learned_policy_proposes_offered_actions st (env : Env) kwargs :
  static_actions env ->
  (forall s : Store,
      offered env (transs s) -> offered env (transs (run_strategy st env kwargs s).2)) /\
  (forall (self : Agent State Action) numOfTrials w,
      let result := learn self env (run_strategy st) numOfTrials kwargs w in
      offered env (transTable result.1.2) /\
      forall policy (state : State) (ac : Action),
        result.1.1 = Ok policy -> policy !! state = Some ac ->
        forall w', ac ∈ getActions env w' state).
Proof.
  intros Hstatic. split; [intros s; by apply run_strategy_offered|].
  intros self numOfTrials w result.
  assert (Hempty : offered env (transs (store_of (clearExperience self) w))).
  { intros w' state by_action ac Hs. cbn in Hs. by rewrite lookup_empty in Hs. }
  pose proof (learn_trials_offered st env kwargs (Z.to_nat numOfTrials) 0 _ Hstatic Hempty)
    as Hoff.
  subst result. unfold learn.
  destruct (learn_trials _ _ _ _ _ _) as [o s] eqn:Htrials. cbn [fst snd] in *.
  split; [done|]. intros policy state ac Hget Hpol w'.
  destruct o as [k|e|]; [|done..]. cbn [obind] in Hget.
  destruct (getPolicy_recorded _ _ _ _ Hget Hpol) as (by_action & Hs & Hac).
  by apply (Hoff w' state by_action).
Qed.

(** ** Utilities and transitions cover the same states *)

Lemma best_of_recorded_state st kwargs transs utils (state : State) actions by_action :
  positive_counts transs ->
  transs !! state = Some by_action -> by_action <> ∅ ->
  exists est,
    obind (strategy_estimates st kwargs transs utils state (Some actions)) py_max = Ok est.
Proof.
  intros Hwf Es Hne.
  assert (Hc : candidates transs state (Some actions) <> []).
  { destruct actions as [|a actions]; [|done].
    change (candidates transs state None <> []).
    by rewrite (candidates_nil transs state by_action Es). }
  assert (Hmax : forall ests : list (Q * Action), ests <> [] -> exists est, py_max ests = Ok est).
  { intros [|x rest] Hx; [done|]. by eexists. }
  destruct st; cbn [strategy_estimates];
    rewrite ?_getEstimates_Ok, ?_getEstimatesOptimistic_Ok by done; cbn [obind];
    apply Hmax; intros Hnil; apply Hc; by apply fmap_nil_inv in Hnil.
Qed.

Lemma learning_step_consistent st (env : Env) kwargs l act (s : Store) o s' :
  consistent_tables s ->
  learning_step env
    (fun state actions s =>
       (obind (strategy_estimates st kwargs (transs s) (utils s) state (Some actions))
              py_max, s))
    l act s = (o, s') ->
  consistent_tables s'.
Proof.
  unfold consistent_tables at 1. intros (Hpos & Hfreq & Hdom).
  unfold learning_step, bind at 1, env_do.
  destruct (do env (l_state l) act (world s)) as [[[newState new_reward] term] w1].
  pose proof (positive_count_transition (l_state l) act newState
                (count_visit newState (set_world w1 s)).2 Hpos) as Hpos3.
  revert Hpos3.
  unfold bind, count_visit, count_transition, env_getActions, modify, gets, lift,
    store_utility, ret.
  cbn [fst snd transs utils freqs world set_transs set_utils set_freqs set_world].
  set (ba3 := <[act := _]> (default ∅ (transs s !! l_state l))).
  set (T3 := <[l_state l := ba3]> (transs s)).
  set (F2 := <[newState := _]> (freqs s)).
  intros Hpos3.
  assert (HF2 : map_Forall (fun _ c => (0 <= c)%Z) F2).
  { apply map_Forall_insert_2; [|done].
    destruct (freqs s !! newState) as [c|] eqn:E; simpl; [|lia].
    specialize (Hfreq _ _ E). simpl in Hfreq. lia. }
  destruct (best_of_recorded_state st kwargs T3 (utils s) (l_state l)
              (getActions env w1 (l_state l)) ba3 Hpos3) as [est Hest];
    [apply lookup_insert_eq|apply insert_non_empty|].
  rewrite Hest.
  rewrite _alpha_default_schedule.
  2: { destruct (F2 !! l_state l) as [c|] eqn:E; simpl; [|lia]. exact (HF2 _ _ E). }
  unfold modify.
  cbn [fst snd transs utils freqs world set_transs set_utils set_freqs set_world].
  match goal with
  | |- match _ with Ok _ => _ | Raise e => (Raise e, ?s3) | OutOfFuel => _ end = _ -> _ =>
      assert (Hfinal : consistent_tables s3)
  end.
  { split; [done|]. split; [done|]. intros state. cbn [utils transs set_utils set_transs].
    unfold T3. destruct (decide (state = l_state l)) as [->|Hne].
    - by rewrite !lookup_insert_eq.
    - rewrite !lookup_insert_ne by done. apply Hdom. }
  destruct (obind (strategy_estimates st kwargs T3 _ newState _) py_max);
    by intros [= <- <-].
Qed.

Lemma consistent_same (s s1 : Store) :
  unchanged s s1 -> consistent_tables s -> consistent_tables s1.
Proof.
  intros (Ht & Hu & Hf). unfold consistent_tables. by rewrite Ht, Hu, Hf.
Qed.

Lemma strategy_body_consistent st (env : Env) kwargs l (s : Store) :
  consistent_tables s -> consistent_tables (strategy_body st env kwargs l s).2.
Proof.
  intros Hc. destruct st; cbn [strategy_body].
  - unfold adp_random_exploration_body, bind at 1.
    pose proof (keeps_adp_random_exploration_choose unchanged l same_tables_world s) as Hk.
    destruct (adp_random_exploration_choose l s) as [[act|e|] s1];
      apply (consistent_same s s1) in Hk; try done.
    unfold bind.
    destruct (learning_step env best_estimate l act s1) as [[l1|e|] s2] eqn:Hstep;
      exact (learning_step_consistent RandomExploration env kwargs l act s1 _ _ Hk Hstep).
  - unfold adp_random_exploration_state_body, bind at 1.
    pose proof (keeps_adp_random_exploration_state_choose unchanged l same_tables_world s)
      as Hk.
    destruct (adp_random_exploration_state_choose l s) as [[act|e|] s1];
      apply (consistent_same s s1) in Hk; try done.
    destruct (learning_step env best_estimate l act s1) as [o s2] eqn:Hstep.
    exact (learning_step_consistent RandomExplorationState env kwargs l act s1 _ _ Hk Hstep).
  - unfold adp_optimistic_rewards_body, bind at 1.
    pose proof (keeps_adp_optimistic_rewards_choose unchanged l same_tables_world s) as Hk.
    destruct (adp_optimistic_rewards_choose l s) as [[act|e|] s1];
      apply (consistent_same s s1) in Hk; try done.
    destruct (learning_step env _ l act s1) as [o s2] eqn:Hstep.
    exact (learning_step_consistent OptimisticRewards env kwargs l act s1 _ _ Hk Hstep).
Qed.

Lemma strategy_init_unchanged st (env : Env) kwargs :
  keeps unchanged (strategy_init st env kwargs).
Proof.
  destruct st; simpl;
    unfold adp_random_exploration_init, adp_random_exploration_state_init,
      adp_optimistic_rewards_init, env_getStartingState, env_getActions;
    repeat keeps_step.
Qed.

Lemma run_strategy_consistent st (env : Env) kwargs (s : Store) :
  consistent_tables s -> consistent_tables (run_strategy st env kwargs s).2.
Proof.
  intros Hc. rewrite run_strategy_unfold. unfold bind.
  pose proof (strategy_init_unchanged st env kwargs s) as Hk.
  destruct (strategy_init st env kwargs s) as [o s0].
  apply (consistent_same s s0) in Hk; [|done].
  destruct o as [l0|e|]; [|done..].
  generalize (iteration_bound (strategy_maxItr st kwargs)). intros fuel.
  clear Hc. revert l0 s0 Hk. induction fuel as [|fuel IH]; intros l s0 Hc; simpl.
  - by destruct (l_isTerminal l).
  - destruct (l_isTerminal l); [done|]. unfold bind.
    pose proof (strategy_body_consistent st env kwargs l s0 Hc) as Hc1.
    destruct (strategy_body st env kwargs l s0) as [[l'|e|] s1]; [|done..].
    destruct (_ <=? _)%Z; [done|]. by apply IH.
Qed.

Lemma learn_trials_consistent st (env : Env) kwargs trials itrs (s : Store) :
  consistent_tables s ->
  consistent_tables (learn_trials (run_strategy st) env kwargs trials itrs s).2.
Proof.
  revert itrs s. induction trials as [|n IH]; intros itrs s Hc; simpl; [done|].
  unfold bind. pose proof (run_strategy_consistent st env kwargs s Hc) as Hc1.
  destruct (run_strategy st env kwargs s) as [[k|e|] s1]; [|done..].
  by apply IH.
Qed.

(** X14. The strategies keep the utilities and the transition model on the
    same states, whatever the outcome of an episode: once the transition
    from a state is recorded, neither the estimate nor the step size can
    fail before the utility of that state is stored.  So a state has a
    utility exactly when it was left at least once, and a state that is only
    ever entered (a terminal state) never gets one.  The same holds of the
    tables of an agent after [learn]. *)
Theorem X14_utilities_cover_the_states_left st (env : Env) kwargs :
  (forall s : Store,
      consistent_tables s -> consistent_tables (run_strategy st env kwargs s).2) /\
  (forall (self : Agent State Action) numOfTrials w,
      let learned := (learn self env (run_strategy st) numOfTrials kwargs w).1.2 in
      forall state : State,
        uTable learned !! state = None <-> transTable learned !! state = None).
Proof.
  split; [apply run_strategy_consistent|].
  intros self numOfTrials w learned state.
  assert (Hempty : consistent_tables (store_of (clearExperience self) w)).
  { split; [apply map_Forall_empty|]. split; [apply map_Forall_empty|].
    intros state'. cbn. by rewrite !lookup_empty. }
  pose proof (learn_trials_consistent st env kwargs (Z.to_nat numOfTrials) 0 _ Hempty)
    as (_ & _ & Hdom).
  subst learned. unfold learn.
  destruct (learn_trials _ _ _ _ _ _) as [o s]. apply Hdom.
Qed.

(** ** The exploration threshold of strategy A *)

Lemma adp_random_exploration_choose_unfold (l : Locals State Action) (s : Store) :
  adp_random_exploration_choose l s
  = let s1 := set_world (random_random (world s)).2 s in
    match math_log (l_t l + 1) with
    | None => (Raise ValueError, s1)
    | Some lg =>
        if Qeq_bool lg 0 then (Raise ZeroDivisionError, s1) else
        match l_bestAction l with
        | Some b =>
            if Qlt_bool (random_random (world s)).1 (1 / lg)
            then random_choice (l_actions l) s1 else (Ok b, s1)
        | None => random_choice (l_actions l) s1
        end
    end.
Proof.
  unfold adp_random_exploration_choose, bind, random, lift, py_div, ret.
  destruct (random_random (world s)) as [r w1]. cbn [fst snd].
  destruct (math_log (l_t l + 1)) as [lg|]; [|done].
  destruct (Qeq_bool lg 0); [done|].
  destruct (l_bestAction l) as [b|]; [|done]. by destruct (Qlt_bool r (1 / lg)).
Qed.

(** X15. Strategy A draws a number and then evaluates [1. / log(t+1)],
    at every loop head and whether or not a best action exists.  Where the
    logarithm has no value (t <= -1) the pass raises [ValueError]; where it
    is 0 (t = 0) the pass raises [ZeroDivisionError]; where it lies in
    (0, 1] the threshold is at least 1, so the agent explores on every draw
    of [0, 1); and where it is negative the agent never explores once it has
    a best action. *)
Theorem X15_exploration_threshold_of_strategy_A (env : Env) tStep l (s : Store) :
  let r := (random_random (world s)).1 in
  let s1 := set_world (random_random (world s)).2 s in
  (math_log (l_t l + 1) = None ->
   (adp_random_exploration_body env tStep l s).1 = Raise ValueError) /\
  (forall lg, math_log (l_t l + 1) = Some lg -> (lg == 0)%Q ->
     (adp_random_exploration_body env tStep l s).1 = Raise ZeroDivisionError) /\
  (forall lg, math_log (l_t l + 1) = Some lg -> (0 < lg /\ lg <= 1)%Q -> (r < 1)%Q ->
     adp_random_exploration_choose l s = random_choice (l_actions l) s1) /\
  (forall lg b, math_log (l_t l + 1) = Some lg -> (lg < 0)%Q -> (0 <= r)%Q ->
     l_bestAction l = Some b ->
     adp_random_exploration_choose l s = (Ok b, s1)).
Proof.
  intros r s1. repeat split.
  - intros Hlog. apply bind_Raise.
    by rewrite adp_random_exploration_choose_unfold, Hlog.
  - intros lg Hlog Hzero. apply bind_Raise.
    rewrite adp_random_exploration_choose_unfold, Hlog.
    apply Qeq_bool_iff in Hzero. by rewrite Hzero.
  - intros lg Hlog [Hpos Hle] Hr.
    rewrite adp_random_exploration_choose_unfold, Hlog. fold r s1.
    destruct (Qeq_bool lg 0) eqn:Ez; [apply Qeq_bool_eq in Ez; lra|].
    destruct (l_bestAction l) as [b|]; [|done].
    assert (Hlt : Qlt_bool r (1 / lg) = true); [|by rewrite Hlt].
    apply Qlt_bool_spec. apply Qlt_le_trans with 1%Q; [done|].
    apply Qle_shift_div_l; lra.
  - intros lg b Hlog Hneg Hr Hbest.
    rewrite adp_random_exploration_choose_unfold, Hlog, Hbest. fold r s1.
    destruct (Qeq_bool lg 0) eqn:Ez; [apply Qeq_bool_eq in Ez; lra|].
    assert (Hlt : Qlt_bool r (1 / lg) = false); [|by rewrite Hlt].
    apply not_true_is_false. rewrite Qlt_bool_spec. intros Hlt.
    assert ((1 / lg) * lg == 1)%Q as Hinv by (field; lra).
    nra.
Qed.

(** ** Iterations and visits *)

Lemma strategy_body_visit st (env : Env) kwargs l s l' s' :
  strategy_body st env kwargs l s = (Ok l', s') ->
  count_of (freqs s') = (count_of (freqs s) + 1)%Z.
Proof.
  intros Hbody.
  apply strategy_body_inv in Hbody as (act & s1 & l1 & Hsame & Hstep & _).
  apply learning_step_inv in Hstep as (? & ? & ? & ? & _ & Hf & _).
  destruct Hsame as (_ & _ & Hf1). rewrite Hf, Hf1. apply count_of_increment.
Qed.

Lemma episode_loop_visits st (env : Env) kwargs fuel l s itr s' :
  episode_loop fuel (strategy_body st env kwargs) (strategy_maxItr st kwargs) l s
    = (Ok itr, s') ->
  (count_of (freqs s') - count_of (freqs s) = itr - l_itr l)%Z.
Proof.
  revert l s. induction fuel as [|fuel IH]; intros l s; simpl.
  - destruct (l_isTerminal l); [|done]. intros [= <- <-]. lia.
  - destruct (l_isTerminal l); [intros [= <- <-]; lia|].
    intros Hloop. apply bind_Ok_inv in Hloop as (l' & s1 & Hbody & Hloop).
    pose proof (strategy_body_itr _ _ _ _ _ _ _ Hbody) as Hitr.
    apply strategy_body_visit in Hbody.
    destruct (strategy_maxItr st kwargs <=? l_itr l')%Z.
    + injection Hloop as <- <-. lia.
    + apply IH in Hloop. lia.
Qed.

Lemma run_strategy_visits st (env : Env) kwargs s itr s' :
  run_strategy st env kwargs s = (Ok itr, s') ->
  count_of (freqs s') = (count_of (freqs s) + itr)%Z.
Proof.
  rewrite run_strategy_unfold. intros Hrun.
  apply bind_Ok_inv in Hrun as (l0 & s0 & Hinit & Hloop).
  pose proof (strategy_init_unchanged st env kwargs s) as (_ & _ & Hf).
  rewrite Hinit in Hf. cbn [snd] in Hf.
  apply strategy_init_reward in Hinit as (_ & Hitr & _).
  apply episode_loop_visits in Hloop. rewrite <- Hf. lia.
Qed.

(** X16. The iteration count an episode returns is the number of visits it
    recorded: the visit counts of the frequency table add up to [itr] more
    than before the episode.  So the total [learn] accumulates over its
    trials is the sum of all visit counts of the agent's frequency table. *)
Theorem X16_returned_iterations_are_the_recorded_visits st (env : Env) kwargs :
  (forall s itr s',
      run_strategy st env kwargs s = (Ok itr, s') ->
      count_of (freqs s') = (count_of (freqs s) + itr)%Z) /\
  (forall (self : Agent State Action) trials w total s',
      learn_trials (run_strategy st) env kwargs trials 0
                   (store_of (clearExperience self) w) = (Ok total, s') ->
      count_of (freqs s') = total).
Proof.
  split; [apply run_strategy_visits|].
  intros self trials w total s' Htrials.
  assert (Hgen : forall itrs (s : Store),
             learn_trials (run_strategy st) env kwargs trials itrs s = (Ok total, s') ->
             (count_of (freqs s') - count_of (freqs s) = total - itrs)%Z).
  { clear Htrials. induction trials as [|n IH]; intros itrs s; simpl.
    - intros [= <- <-]. lia.
    - intros Hrun. apply bind_Ok_inv in Hrun as (k & s1 & Hepisode & Hrest).
      apply run_strategy_visits in Hepisode. apply IH in Hrest. lia. }
  apply Hgen in Htrials. cbn in Htrials. unfold count_of in Htrials at 2.
  rewrite map_to_list_empty in Htrials. cbn in Htrials. lia.
Qed.

End MonadFacts.

(** * The scenarios *)

Section Scenarios.
Import Scenario.

(** C1. The code raises where the specification promises a completed step: in the
    environment [dead_end] the only step leads to a terminal state for which
    [getActions] returns the empty list and for which nothing is recorded,
    so the last [max(...)] of the loop body gets an empty list.  All three
    strategies end the episode with [ValueError], from fresh tables. *)
Theorem C1_dead_end_raises_ValueError (st : strategy) :
  (run_strategy st dead_end no_kwargs (fresh [])).1 = Raise ValueError.
Proof. destruct st; vm_compute; reflexivity. Qed.

(** C2. The [alpha] option is read and never used: a run with a supplied
    step-size function is the run without it.  With [alpha] the constant 0
    the specification requires [utils[0] = 0 + 0 * rewardEstimate = 0]; the code
    stores [_alpha(0) * rewardEstimate], which is not 0, both on a direct
    call with tables that hold a utility for state 1 and through
    [learn] with two trials. *)
Theorem C2_supplied_alpha_is_not_used (st : strategy) :
  run_strategy st one_step (with_alpha no_step) learned
  = run_strategy st one_step no_kwargs learned /\
  (exists v : Q,
    utils (run_strategy st one_step (with_alpha no_step) learned).2 !! 0%nat = Some v /\
    ~ (v == 0 + 0 * 1)%Q) /\
  (exists v : Q,
    uTable (learn new_agent chain (run_strategy st) 2 (with_alpha no_step) []).1.2 !! 0%nat
      = Some v /\
    ~ (v == 0)%Q).
Proof.
  split; [by destruct st|].
  split; destruct st; vm_compute; eexists; (split; [reflexivity|]); intros E; discriminate E.
Qed.

(** C4. Two calls without table arguments share the function's default
    dictionaries: after the first call the tables a bare call starts with
    are no longer empty, and the second call counts its visit of state 1 on
    top of the first one's.  This holds for each of the three functions. *)
Theorem C4_bare_calls_share_default_tables :
  (let first := call_adp_random_exploration one_step bare no_kwargs module_loaded [] in
   let second := call_adp_random_exploration one_step bare no_kwargs first.1.2 first.2 in
   tables_on_entry (adp_random_exploration_defaults first.1.2) bare <> empty_tables /\
   t_freqs first.1.1.2 !! 1%nat = Some 1%Z /\
   t_freqs second.1.1.2 !! 1%nat = Some 2%Z) /\
  (let first := call_adp_random_exploration_state one_step bare no_kwargs module_loaded [] in
   let second := call_adp_random_exploration_state one_step bare no_kwargs first.1.2 first.2 in
   tables_on_entry (adp_random_exploration_state_defaults first.1.2) bare <> empty_tables /\
   t_freqs first.1.1.2 !! 1%nat = Some 1%Z /\
   t_freqs second.1.1.2 !! 1%nat = Some 2%Z) /\
  (let first := call_adp_optimistic_rewards one_step bare no_kwargs module_loaded [] in
   let second := call_adp_optimistic_rewards one_step bare no_kwargs first.1.2 first.2 in
   tables_on_entry (adp_optimistic_rewards_defaults first.1.2) bare <> empty_tables /\
   t_freqs first.1.1.2 !! 1%nat = Some 1%Z /\
   t_freqs second.1.1.2 !! 1%nat = Some 2%Z).
Proof.
  repeat split; try (vm_compute; reflexivity);
    intros E; apply (f_equal (fun t => t_freqs t !! 1%nat)) in E;
    vm_compute in E; discriminate E.
Qed.

(** C5, as stated, fails: with nothing learned the candidates 0 and 1 of
    state 0 both have the estimate 0; action 0 is seen first, and [max]
    selects action 1. *)
Lemma C5_first_seen_candidate_loses_tie :
  _getEstimates (∅ : gmap nat (gmap nat (gmap nat Z))) ∅ 0%nat (Some [0%nat; 1%nat])
    = Ok [(0%Q, 0%nat); (0%Q, 1%nat)] /\
  py_max [(0%Q, 0%nat); (0%Q, 1%nat)] = Ok (0%Q, 1%nat) /\
  (best_estimate 0%nat [0%nat; 1%nat] (fresh [])).1 = Ok (0%Q, 1%nat) /\
  ~ first_seen_wins [(0%Q, 0%nat); (0%Q, 1%nat)] (0%Q, 1%nat).
Proof.
  split; [vm_compute; reflexivity|]. split; [vm_compute; reflexivity|].
  split; [vm_compute; reflexivity|].
  intros (i & Hi & Hfirst).
  destruct i as [|[|i]]; [discriminate Hi| |discriminate Hi].
  specialize (Hfirst 0%nat (0%Q, 0%nat) eq_refl). simpl in Hfirst.
  assert (1 <= 0)%nat by (apply Hfirst; reflexivity). lia.
Qed.

(** C8, as stated, fails: in the transition model [{0: {0: {1: 0}}}] the
    total observation count recorded for state 0 and action 0 is zero, while
    a successor is recorded; [_getEstimates] and [_getEstimatesOptimistic]
    called for the candidate action 0 perform the division [0 / 0] and
    raise [ZeroDivisionError]. *)
Lemma C8_recorded_zero_count_divides_by_zero :
  zero_entry !! 0%nat = Some {[0%nat := {[1%nat := 0%Z]}]} /\
  observation_count zero_entry 0%nat 0%nat = 0%Z /\
  _getEstimates zero_entry ∅ 0%nat (Some [0%nat]) = Raise ZeroDivisionError /\
  _getEstimatesOptimistic zero_entry ∅ 0%nat 5 12 (Some [0%nat]) = Raise ZeroDivisionError.
Proof. repeat split; vm_compute; reflexivity. Qed.

(** A recorded count of 0 lies outside the data model; there the total is 0
    while a successor is recorded, and the division by the total raises. *)
Example zero_count_entry_is_outside_the_model :
  ~ positive_counts zero_entry /\
  count_of (freq_of zero_entry 0%nat 0%nat) = 0%Z /\
  estimate_action zero_entry ∅ 0%nat 0%nat = Raise ZeroDivisionError.
Proof.
  split; [|split; vm_compute; reflexivity].
  intros Hwf.
  assert (1 <= 0)%Z; [|lia].
  apply (Hwf 0%nat {[0%nat := {[1%nat := 0%Z]}]} eq_refl
             0%nat {[1%nat := 0%Z]} eq_refl 1%nat 0%Z eq_refl).
Qed.


(** On numbered actions the greater action wins the tie, in either order. *)
Lemma C5_witness :
  (0%Q, 1%nat) ∈ [(0%Q, 0%nat); (0%Q, 1%nat)] /\
  (forall x : Q * nat, x ∈ [(0%Q, 0%nat); (0%Q, 1%nat)] ->
     (x.1 <= 0)%Q /\ ((x.1 == 0)%Q -> py_lt 1%nat x.2 = false)) /\
  exists best', py_max [(0%Q, 1%nat); (0%Q, 0%nat)] = Ok best' /\
                (best'.1 == 0)%Q /\ best'.2 = 1%nat.
Proof.
  apply (C5_greatest_action_wins_ties (Action := nat)).
  - intros a. apply Nat.ltb_irrefl.
  - intros a b c Hab Hbc. apply Nat.ltb_lt in Hab, Hbc. apply Nat.ltb_lt. lia.
  - intros a b. rewrite !Nat.ltb_lt. lia.
  - reflexivity.
  - intros x. rewrite !elem_of_cons. tauto.
Defined.

(** The first pass of strategy B over [chain]. *)
Lemma C6_witness :
  let l := entry 0%nat [0%nat] 0 None in
  let s := fresh [1 # 2; 1 # 4]%Q in
  let l' := second_head in
  let s' := first_pass.2 in
  exists (bestAction : nat) (w : list Q) (new_reward rewardEstimate a : Q) (b : nat),
    do chain (l_state l) bestAction w
      = ((l_state l', new_reward, l_isTerminal l'), world s') /\
    freqs s' = <[l_state l' := (default 0 (freqs s !! l_state l') + 1)%Z]> (freqs s) /\
    obind (_getEstimates (transs s') (utils s) (l_state l)
             (Some (getActions chain (world s') (l_state l)))) py_max
      = Ok (rewardEstimate, b) /\
    _alpha (default 0%Z (freqs s' !! l_state l)) = Ok a /\
    utils s' = <[l_state l := (l_reward l + a * rewardEstimate)%Q]> (utils s) /\
    l_reward l' = new_reward.
Proof.
  apply (proj2 (C6_entered_state_counted_lagged_reward_used
                  RandomExplorationState chain no_kwargs)
               (entry 0%nat [0%nat] 0 None) (fresh [1 # 2; 1 # 4]%Q)).
  vm_compute. reflexivity.
Defined.

(** [solve] on [abyss] stops after its first step. *)
Lemma C7_witness :
  exists act s',
    solve 3 abyss ∅ (fresh [1 # 2]%Q) = (Ok ([act], (0 + -2000)%Q), s') /\
    (length [act] <= 500)%nat.
Proof.
  apply (proj2 (proj2 (proj2 (C7_solve_replays_policy_until_terminal_or_abort abyss ∅)))).
  - intros state act w. eexists _, _. reflexivity.
  - intros w. destruct w as [|r w]; simpl; [lra|].
    destruct (Qle_bool 0 r) eqn:E0; simpl; [|lra].
    destruct (Qlt_bool r 1) eqn:E1; simpl; [|lra].
    apply Qle_bool_iff in E0. apply Qlt_bool_spec in E1. lra.
  - intros w state. discriminate.
Defined.

(** One observed and one untried action: the untried action 1 has the
    count 0 and the plain estimate 0. *)
Lemma C8_witness :
  observation_count one_observation 0%nat 1%nat = 0%Z /\
  exists ests opts,
    _getEstimates one_observation {[1%nat := 1%Q]} 0%nat (Some [0%nat; 1%nat]) = Ok ests /\
    _getEstimatesOptimistic one_observation {[1%nat := 1%Q]} 0%nat 5 12 (Some [0%nat; 1%nat])
      = Ok opts /\
    forall (i : nat) (ac : nat),
      candidates one_observation 0%nat (Some [0%nat; 1%nat]) !! i = Some ac ->
      observation_count one_observation 0%nat ac = 0%Z ->
      recorded_successors one_observation 0%nat ac = ∅ /\
      ests !! i = Some (0%Q, ac) /\
      opts !! i = Some (if (0 <? 12)%Z then 5%Q else 0%Q, ac).
Proof.
  split; [vm_compute; reflexivity|].
  apply (proj2 (C8_zero_count_is_guarded one_observation {[1%nat := 1%Q]} 0%nat 5 12
                  (Some [0%nat; 1%nat]))).
  apply (bool_decide_unpack _). vm_compute. reflexivity.
Defined.


(** An episode of strategy B over [chain] returns after two passes. *)
Lemma X1_witness :
  exists itr s',
    run_strategy RandomExplorationState chain no_kwargs (fresh [1 # 2; 1 # 4]%Q)
      = (Ok itr, s') /\
    (1 <= itr <= Z.max 1 (strategy_maxItr RandomExplorationState no_kwargs))%Z.
Proof.
  eexists _, _. split; [vm_compute; reflexivity|].
  refine (proj2 (X1_episode_runs_between_one_and_maxItr_passes
                   RandomExplorationState chain no_kwargs (fresh [1 # 2; 1 # 4]%Q)) _ _ _).
  vm_compute. reflexivity.
Defined.

(** An episode over [chain] that starts from one recorded observation. *)
Lemma X2_witness :
  let s := {| transs := one_observation; utils := ∅; freqs := ∅; world := [] |} in
  positive_counts (transs (run_strategy OptimisticRewards chain no_kwargs s).2).
Proof.
  apply (proj1 (X2_transition_model_stays_well_formed OptimisticRewards chain no_kwargs)).
  apply (bool_decide_unpack _). vm_compute. reflexivity.
Defined.

(** The policy of [seasoned] has the one entry 0 -> 0. *)
Lemma X3_witness :
  (({[0%nat := 0%nat]} : gmap nat nat) !! 0%nat = None
   <-> transTable seasoned !! 0%nat = None) /\
  (forall by_action,
      transTable seasoned !! 0%nat = Some by_action ->
      exists ests best,
        _getEstimates (transTable seasoned) (uTable seasoned) 0%nat None = Ok ests /\
        py_max ests = Ok best /\
        ({[0%nat := 0%nat]} : gmap nat nat) !! 0%nat = Some best.2 /\
        is_Some (by_action !! best.2)).
Proof.
  refine (X3_policy_covers_exactly_the_recorded_states seasoned {[0%nat := 0%nat]} _ 0%nat).
  vm_compute. reflexivity.
Defined.

(** [seasoned] has an action for its one recorded state. *)
Lemma X4_witness :
  exists policy, getPolicy seasoned = Ok policy.
Proof.
  apply (proj1 (X4_getPolicy_needs_an_action_per_state seasoned
                  ltac:(apply (bool_decide_unpack _); vm_compute; reflexivity))).
  apply (bool_decide_unpack _). vm_compute. reflexivity.
Defined.

(** Two trials of strategy B over [chain] return, and so does [learn]. *)
Lemma X5_witness :
  let result := learn new_agent chain (run_strategy RandomExplorationState) 2 no_kwargs [] in
  exists policy, result.1.1 = Ok policy /\
    forall state : nat,
      policy !! state = None <-> transTable result.1.2 !! state = None.
Proof.
  exact (X5_learn_returns_a_policy_when_its_trials_return
           RandomExplorationState new_agent chain 2 no_kwargs []).
Defined.

(** Every step of [abyss] costs 2000. *)
Lemma X6_witness :
  fst (solve 1001 abyss ∅ (fresh [])) <> OutOfFuel /\
  forall trace total s',
    solve 1001 abyss ∅ (fresh []) = (Ok (trace, total), s') ->
    (length trace <= 1001)%nat.
Proof.
  apply (X6_solve_ends_within_1001_steps_when_steps_cost abyss ∅ 1001 (fresh [])).
  - intros state act w. simpl. lra.
  - lia.
Defined.

(** [no_exit] with the empty policy. *)
Lemma X7_witness :
  fst (solve 1 no_exit ∅ (fresh [])) = Raise IndexError.
Proof.
  apply (X7_solve_raises_IndexError_in_a_dead_end no_exit ∅ 0 (fresh []));
    reflexivity.
Defined.

(** Counts 1 and 3 give the probabilities 1/4 and 3/4. *)
Lemma X8_witness :
  exists probs,
    probs_of one_and_three (count_of one_and_three) = Ok probs /\
    (py_sum_Q probs.*2 == 1)%Q /\
    forall (successor : nat) (p : Q),
      (successor, p) ∈ probs ->
      (0 < p /\ p <= 1)%Q /\
      exists c, one_and_three !! successor = Some c /\
                p = (inject_Z c / inject_Z (count_of one_and_three))%Q.
Proof.
  apply (X8_probabilities_sum_to_one one_and_three).
  - apply (bool_decide_unpack _). vm_compute. reflexivity.
  - intros E. apply (f_equal (fun m => m !! 1%nat)) in E. vm_compute in E. discriminate E.
Defined.


(** With [N_e = 0] the untried action 1 keeps its plain estimate. *)
Lemma X10_witness :
  _getEstimatesOptimistic one_observation {[1%nat := 1%Q]} 0%nat 5 0 (Some [0%nat; 1%nat])
  = _getEstimates one_observation {[1%nat := 1%Q]} 0%nat (Some [0%nat; 1%nat]).
Proof.
  apply (X10_no_optimism_without_threshold one_observation {[1%nat := 1%Q]} 0%nat 5 0
           (Some [0%nat; 1%nat])).
  - apply (bool_decide_unpack _). vm_compute. reflexivity.
  - lia.
Defined.

(** The first pass of strategy B over [chain] records 0 -0-> 1. *)
Lemma X11_witness :
  let l := entry 0%nat [0%nat] 0 None in
  let s := fresh [1 # 2; 1 # 4]%Q in
  let l' := second_head in
  let s' := first_pass.2 in
  exists bestAction : nat,
    let before := freq_of (transs s) (l_state l) bestAction in
    let after := freq_of (transs s') (l_state l) bestAction in
    after = <[l_state l' := (default 0 (before !! l_state l') + 1)%Z]> before /\
    count_of after = (count_of before + 1)%Z /\
    forall (state : nat) (ac : nat),
      (state, ac) <> (l_state l, bestAction) ->
      freq_of (transs s') state ac = freq_of (transs s) state ac.
Proof.
  apply (X11_a_pass_records_one_observation RandomExplorationState chain no_kwargs
           (entry 0%nat [0%nat] 0 None) (fresh [1 # 2; 1 # 4]%Q)).
  vm_compute. reflexivity.
Defined.

(** Strategy A over [no_exit], from fresh tables. *)
Lemma X12_witness :
  (run_strategy RandomExploration no_exit no_kwargs (fresh [])).1 = Raise IndexError.
Proof.
  apply (X12_no_action_in_the_starting_state_raises_IndexError
           RandomExploration no_exit no_kwargs (fresh [])).
  - reflexivity.
  - reflexivity.
  - intros _. eexists. split; [reflexivity|]. vm_compute. reflexivity.
Defined.

(** The action lists of [chain] are fixed; two trials of strategy B. *)
Lemma X13_witness :
  let result := learn new_agent chain (run_strategy RandomExplorationState) 2 no_kwargs [] in
  offered chain (transTable result.1.2) /\
  forall policy (state : nat) (ac : nat),
    result.1.1 = Ok policy -> policy !! state = Some ac ->
    forall w', ac ∈ getActions chain w' state.
Proof.
  apply (proj2 (X13_a_learned_policy_proposes_offered_actions
                  RandomExplorationState chain no_kwargs
                  ltac:(intros w w' state; reflexivity))
               new_agent 2%Z []).
Defined.

(** The episode over [dead_end] raises after its first pass, and leaves a
    utility for state 0, which it left, and none for state 1. *)
Lemma X14_witness :
  let s' := (run_strategy RandomExplorationState dead_end no_kwargs (fresh [])).2 in
  consistent_tables s' /\ is_Some (utils s' !! 0%nat) /\ utils s' !! 1%nat = None.
Proof.
  split; [|split; [eexists|]; vm_compute; reflexivity].
  apply (proj1 (X14_utilities_cover_the_states_left RandomExplorationState dead_end
                  no_kwargs)).
  split; [apply map_Forall_empty|]. split; [apply map_Forall_empty|].
  intros state. simpl. by rewrite !lookup_empty.
Defined.

(** With [t = -1] the logarithm has no value; with [t = 0] it is 0. *)
Lemma X15_witness :
  (adp_random_exploration_body chain (8 # 10) (entry 0%nat [0%nat] (-1) None) (fresh [])).1
  = Raise ValueError /\
  (adp_random_exploration_body chain (8 # 10) (entry 0%nat [0%nat] 0 None) (fresh [])).1
  = Raise ZeroDivisionError.
Proof.
  split.
  - apply (proj1 (X15_exploration_threshold_of_strategy_A
                    chain (8 # 10) (entry 0%nat [0%nat] (-1) None) (fresh []))).
    reflexivity.
  - apply (proj1 (proj2 (X15_exploration_threshold_of_strategy_A
                           chain (8 # 10) (entry 0%nat [0%nat] 0 None) (fresh [])))
                 (2 * (0 + 1 - 1) / (0 + 1 + 1))%Q).
    + reflexivity.
    + reflexivity.
Defined.

(** An episode of strategy B over [chain] returns 2 and records 2 visits. *)
Lemma X16_witness :
  exists itr s',
    run_strategy RandomExplorationState chain no_kwargs (fresh [1 # 2; 1 # 4]%Q)
      = (Ok itr, s') /\
    count_of (freqs s') = (count_of (freqs (fresh [1 # 2; 1 # 4]%Q)) + itr)%Z.
Proof.
  eexists _, _. split; [vm_compute; reflexivity|].
  refine (proj1 (X16_returned_iterations_are_the_recorded_visits
                   RandomExplorationState chain no_kwargs) _ _ _ _).
  vm_compute. reflexivity.
Defined.
End Scenarios.
